(** * Template customizer for the edge-test pages

    Shallow embedding of the three developer scripts under
    [page/developer/edge-tests/_template/]:

    - [customize_scripts.py]  (module [CustomizeScripts]),
    - [customize_all.py]      (module [CustomizeAll]),
    - [fix_all_pages.py]      (module [FixAllPages]).

    Each script reads the demo [script.js] (and, for [fix_all_pages.py], the
    demo [style.css]), applies an ordered list of literal replacements taken
    from a static table and writes the result into the directory of every
    entity of that table.

    Texts are Python [str] values.  Every pattern of the scripts is ASCII, so
    a text is modelled as the list of the bytes of its UTF-8 encoding: an
    ASCII byte never occurs inside a multi-byte sequence, hence literal
    replacement on code points and on bytes agree.  [lower] and [title] are
    modelled on ASCII letters, which covers every value of the tables. *)

From Stdlib Require Import Ascii String List Bool Arith Lia.
From stdpp Require Import base list strings gmap.

Set Default Proof Using "Type".

(** ** Texts *)

Abbreviation text := (list ascii).

(** A Python string literal as a text. *)
Definition lit (s : string) : text := list_ascii_of_string s.

(** The double-quote character. *)
Definition dq : ascii := ascii_of_nat 34.

(** [str.startswith]: [startswith p s] is [s.startswith(p)]. *)
Fixpoint startswith (p s : text) : bool :=
  match p, s with
  | [], _ => true
  | _ :: _, [] => false
  | a :: p', b :: s' => Ascii.eqb a b && startswith p' s'
  end.

(** [contains p s] is Python's [p in s]. *)
Fixpoint contains (p s : text) : bool :=
  match s with
  | [] => startswith p []
  | _ :: t => startswith p s || contains p t
  end.

(** ** [str.replace]

    [s.replace(old, new)] scans [s] from the left; at every position where
    [old] starts it emits [new] and resumes after the match, otherwise it
    copies one character.  [skip] counts the characters of a match that are
    still to be dropped. *)
Fixpoint replace_go (old new : text) (skip : nat) (s : text) : text :=
  match s with
  | [] => []
  | c :: t =>
      match skip with
      | S k => replace_go old new k t
      | O =>
          if startswith old s
          then new ++ replace_go old new (length old - 1) t
          else c :: replace_go old new 0 t
      end
  end.

(** With an empty [old], Python inserts [new] before every character and at
    the end. *)
Definition replace (old new s : text) : text :=
  match old with
  | [] => new ++ flat_map (fun c => c :: new) s
  | _ :: _ => replace_go old new 0 s
  end.

(** [re.sub(pattern, repl, s)] for the two patterns of the scripts,
    [inputValues\.userId] and [\{userId\}]: both match exactly one literal
    string, and matches are found left to right without overlap, so the call
    is the literal replacement of that string.  [literal] is the string the
    pattern matches; [repl] holds no backslash in any use made of it here. *)
Definition re_sub_literal (literal repl s : text) : text :=
  replace literal repl s.

(** ** [str.lower] and [str.title] on ASCII *)

Definition is_upper (c : ascii) : bool :=
  let n := nat_of_ascii c in (65 <=? n) && (n <=? 90).

Definition is_lower (c : ascii) : bool :=
  let n := nat_of_ascii c in (97 <=? n) && (n <=? 122).

Definition to_lower (c : ascii) : ascii :=
  if is_upper c then ascii_of_nat (nat_of_ascii c + 32) else c.

Definition to_upper (c : ascii) : ascii :=
  if is_lower c then ascii_of_nat (nat_of_ascii c - 32) else c.

Definition lower (s : text) : text := map to_lower s.

(** [str.title]: a cased character is upper-cased when the previous character
    is uncased, lower-cased otherwise; uncased characters are kept. *)
Fixpoint title_go (prev_cased : bool) (s : text) : text :=
  match s with
  | [] => []
  | c :: t =>
      if is_upper c || is_lower c
      then (if prev_cased then to_lower c else to_upper c) :: title_go true t
      else c :: title_go false t
  end.

Definition title (s : text) : text := title_go false s.

(** The loop [for old, new in replacements: content = content.replace(old, new)]. *)
Definition apply_replacements (rs : list (text * text)) (content : text) : text :=
  fold_left (fun acc r => replace (fst r) (snd r) acc) rs content.

(** The default identifier field of the demo template. *)
Definition default_id_field : string := "userId".

(** ** Files

    The part of the file system the scripts touch: the text files by path and
    the directories that exist.  [written] logs, in order, the paths opened
    for writing by the run; it is the record of the files a run produces.
    The [print] calls of the scripts only report progress on standard output
    and are left out. *)
Record world := World {
  files : gmap string text;
  dirs : gset string;
  written : list string;
}.

(** The exceptions the scripts can raise; none is caught, so a raised
    exception ends the run with the file system as it is at that point. *)
Inductive exn :=
  | FileNotFoundError (path : string)
  | KeyError (key : string).

Inductive outcome :=
  | Done (w : world)
  | Raised (e : exn) (w : world).

(** The world an outcome leaves behind. *)
Definition world_of (o : outcome) : world :=
  match o with Done w => w | Raised _ w => w end.

Definition is_done (o : outcome) : bool :=
  match o with Done _ => true | Raised _ _ => false end.

(** [with open(path, 'r') as f: content = f.read()]. *)
Definition read_file (path : string) (w : world) : option text :=
  files w !! path.

(** [with open(path, 'w') as f: f.write(content)]: the file is created or
    truncated and receives [content]; opening fails when the directory [dir]
    that holds it does not exist. *)
Definition write_file (dir path : string) (content : text) (w : world) : outcome :=
  if decide (dir ∈ dirs w)
  then Done {| files := <[path := content]> (files w);
               dirs := dirs w;
               written := written w ++ [path] |}
  else Raised (FileNotFoundError path) w.

(** A [for] loop over a list whose body may raise. *)
Fixpoint for_each {A} (body : A → world → outcome) (l : list A) (w : world) : outcome :=
  match l with
  | [] => Done w
  | x :: l' =>
      match body x w with
      | Done w' => for_each body l' w'
      | Raised e w' => Raised e w'
      end
  end.

(** [os.path.join(a, b)] on POSIX paths. *)
Fixpoint ends_with_sep (s : string) : bool :=
  match s with
  | EmptyString => false
  | String c EmptyString => Ascii.eqb c "/"
  | String _ s' => ends_with_sep s'
  end.

Definition path_join (a b : string) : string :=
  if String.prefix "/" b then b
  else match a with
       | EmptyString => b
       | _ => if ends_with_sep a then a +:+ b else a +:+ "/" +:+ b
       end.

(** A dictionary literal read by key: the value of the first entry with that
    key (the keys of every table below are distinct). *)
Fixpoint dict_get {V} (d : list (string * V)) (k : string) : option V :=
  match d with
  | [] => None
  | (k', v) :: d' => if decide (k' = k) then Some v else dict_get d' k
  end.

(** ** [customize_scripts.py] *)

Module CustomizeScripts.

(** An entry of [CLASSES].  The [scenarios] entry of [cart] is never read by
    the script and is left out. *)
Record config := Config {
  name : string;
  config_key : string;
  endpoint_base : string;
  id_field : string;
}.

Definition CLASSES : list (string * config) :=
  [ ("cart", Config "Cart" "cart" "/cart" "cartId");
    ("wishlist", Config "Wishlist" "wishlist" "/wishlist" "wishlistId");
    ("coupon", Config "Coupon" "coupon" "/coupon" "couponId");
    ("subscriptions", Config "Subscriptions" "subscriptions" "/subscriptions" "subscriptionId");
    ("transactions", Config "Transactions" "transactions" "/transactions" "transactionId");
    ("gateway-1", Config "Gateway 1" "gateway-1" "/gateway-1" "gatewayId");
    ("gateway-2", Config "Gateway 2" "gateway-2" "/gateway-2" "gatewayId");
    ("media", Config "Media" "media" "/media" "mediaId");
    ("products", Config "Products" "products" "/products" "productId");
    ("orders", Config "Orders" "orders" "/orders" "orderId") ].

(** The list [replacements] of [customize_script], in source order. *)
Definition replacements (cfg : config) : list (text * text) :=
  [ (lit "Demo Class", lit (name cfg) ++ lit " Class");
    (lit "demo functionality", lower (lit (name cfg)) ++ lit " functionality");
    (lit "demo", lit (config_key cfg));
    (lit "Demo", lit (name cfg));
    (lit "/demo", lit (endpoint_base cfg));
    (lit "EdgeTestsDemo", lit "EdgeTests" ++ replace (lit " ") [] (lit (name cfg)));
    (lit "[Edge Tests Demo]", lit "[Edge Tests " ++ lit (name cfg) ++ lit "]") ].

(** The two [re.sub] calls guarded by [config['id_field'] != 'userId']. *)
Definition id_field_step (cfg : config) (content : text) : text :=
  if decide (id_field cfg = default_id_field) then content
  else
    let content :=
      re_sub_literal (lit "inputValues.userId")
        (lit "inputValues." ++ lit (id_field cfg)) content in
    re_sub_literal (lit "{userId}")
      (lit "{" ++ lit (id_field cfg) ++ lit "}") content.

(** The text transformation of [customize_script]: what is written for the
    content that was read. *)
Definition customize_text (cfg : config) (content : text) : text :=
  id_field_step cfg (apply_replacements (replacements cfg) content).

(** The paths are relative to the working directory of the run. *)
Definition demo_path : string := "page/developer/edge-tests-demo/script.js".
Definition target_dir (class_name : string) : string :=
  "page/developer/edge-tests-" +:+ class_name.
Definition target_path (class_name : string) : string :=
  target_dir class_name +:+ "/script.js".

Definition customize_script (class_name : string) (cfg : config) (w : world) : outcome :=
  match read_file demo_path w with
  | None => Raised (FileNotFoundError demo_path) w
  | Some content =>
      write_file (target_dir class_name) (target_path class_name)
        (customize_text cfg content) w
  end.

(** [for class_name, config in CLASSES.items(): customize_script(class_name, config)]. *)
Definition main (w : world) : outcome :=
  for_each (fun kc => customize_script (fst kc) (snd kc)) CLASSES w.

(** The writes of a run over the entries [l] when the demo script holds
    [content]. *)
Definition jobs (l : list (string * config)) (content : text) :
    list (string * string * text) :=
  map (fun kc => (target_dir (fst kc), target_path (fst kc),
                  customize_text (snd kc) content)) l.

End CustomizeScripts.

(** ** [customize_all.py] *)

Module CustomizeAll.

Record config := Config {
  name : string;
  item : string;
  items : string;
}.

Definition CLASSES : list (string * config) :=
  [ ("cart", Config "Cart" "Cart Item" "cart items");
    ("wishlist", Config "Wishlist" "Wishlist Item" "wishlist items");
    ("coupon", Config "Coupon" "Coupon" "coupons");
    ("subscriptions", Config "Subscriptions" "Subscription" "subscriptions");
    ("transactions", Config "Transactions" "Transaction" "transactions");
    ("gateway-1", Config "Gateway 1" "Gateway 1 Item" "gateway 1 items");
    ("gateway-2", Config "Gateway 2" "Gateway 2 Item" "gateway 2 items");
    ("media", Config "Media" "Media Item" "media items");
    ("products", Config "Products" "Product" "products");
    ("orders", Config "Orders" "Order" "orders") ].

(** The nine [content = content.replace(...)] statements of
    [customize_file], in source order. *)
Definition replacements (class_key : string) (cfg : config) : list (text * text) :=
  [ (lit "Demo Class", lit (name cfg) ++ lit " Class");
    (dq :: lit "demo" ++ [dq], dq :: lit class_key ++ [dq]);
    (lit "/demo", lit "/" ++ lit class_key);
    (lit "EdgeTestsDemo", lit "EdgeTests" ++ replace (lit " ") [] (lit (name cfg)));
    (lit "[Edge Tests Demo]", lit "[Edge Tests " ++ lit (name cfg) ++ lit "]");
    (lit "Demo Item", lit (item cfg));
    (lit "demo item", lower (lit (item cfg)));
    (lit "demo items", lit (items cfg));
    (lit "Demo Items", title (lit (items cfg))) ].

Definition customize_text (class_key : string) (cfg : config) (content : text) : text :=
  apply_replacements (replacements class_key cfg) content.

Section Run.
(** [os.path.dirname(os.path.dirname(os.path.abspath(__file__)))]: the
    directory above the one that holds the script. *)
Variable base_dir : string.

Definition demo_path : string :=
  path_join (path_join base_dir "edge-tests-demo") "script.js".
Definition target_dir (class_key : string) : string :=
  path_join base_dir ("edge-tests-" +:+ class_key).
Definition target_path (class_key : string) : string :=
  path_join (target_dir class_key) "script.js".

Definition customize_file (class_key : string) (cfg : config) (w : world) : outcome :=
  match read_file demo_path w with
  | None => Raised (FileNotFoundError demo_path) w
  | Some content =>
      write_file (target_dir class_key) (target_path class_key)
        (customize_text class_key cfg content) w
  end.

Definition main (w : world) : outcome :=
  for_each (fun kc => customize_file (fst kc) (snd kc)) CLASSES w.
End Run.

End CustomizeAll.

(** ** [fix_all_pages.py] *)

Module FixAllPages.

Record config := Config {
  name : string;
  item : string;
  items : string;
  id_field : string;
}.

Definition CLASSES : list (string * config) :=
  [ ("wishlist", Config "Wishlist" "Wishlist Item" "wishlist items" "wishlistId");
    ("coupon", Config "Coupon" "Coupon" "coupons" "couponId");
    ("subscriptions", Config "Subscriptions" "Subscription" "subscriptions" "subscriptionId");
    ("transactions", Config "Transactions" "Transaction" "transactions" "transactionId");
    ("gateway-1", Config "Gateway 1" "Gateway 1 Item" "gateway 1 items" "gatewayId");
    ("gateway-2", Config "Gateway 2" "Gateway 2 Item" "gateway 2 items" "gatewayId");
    ("media", Config "Media" "Media Item" "media items" "mediaId");
    ("products", Config "Products" "Product" "products" "productId");
    ("orders", Config "Orders" "Order" "orders" "orderId") ].

(** The list [replacements] of [customize_script], in source order. *)
Definition replacements (class_key : string) (cfg : config) : list (text * text) :=
  [ (lit "Demo Class", lit (name cfg) ++ lit " Class");
    (lit "demo/template", lower (lit (name cfg)) ++ lit " functionality");
    (dq :: lit "demo" ++ [dq], dq :: lit class_key ++ [dq]);
    (lit "'demo'", lit "'" ++ lit class_key ++ lit "'");
    (lit "/demo", lit "/" ++ lit class_key);
    (lit "EdgeTestsDemo", lit "EdgeTests" ++ replace (lit " ") [] (lit (name cfg)));
    (lit "[Edge Tests Demo]", lit "[Edge Tests " ++ lit (name cfg) ++ lit "]");
    (lit "Demo Item", lit (item cfg));
    (lit "demo item", lower (lit (item cfg)));
    (lit "demo items", lit (items cfg));
    (lit "Demo Items", title (lit (items cfg)));
    (lit "{userId}", lit "{" ++ lit (id_field cfg) ++ lit "}") ].

(** The two [replace] calls guarded by [config['id_field'] != 'userId']. *)
Definition id_field_step (cfg : config) (content : text) : text :=
  if decide (id_field cfg = default_id_field) then content
  else
    let content :=
      replace (lit "inputValues.userId")
        (lit "inputValues." ++ lit (id_field cfg)) content in
    replace (lit "'userId'") (lit "'" ++ lit (id_field cfg) ++ lit "'") content.

Definition customize_text (class_key : string) (cfg : config) (content : text) : text :=
  id_field_step cfg (apply_replacements (replacements class_key cfg) content).

(** The one replacement of [copy_style]. *)
Definition style_text (cfg : config) (content : text) : text :=
  replace (lit "Demo Class (Template)") (lit (name cfg) ++ lit " Class") content.

Section Run.
(** [os.path.dirname(os.path.dirname(os.path.abspath(__file__)))]. *)
Variable base_dir : string.

Definition demo_script : string :=
  path_join (path_join base_dir "edge-tests-demo") "script.js".
Definition demo_style : string :=
  path_join (path_join base_dir "edge-tests-demo") "style.css".
Definition target_dir (class_key : string) : string :=
  path_join base_dir ("edge-tests-" +:+ class_key).
Definition target_script (class_key : string) : string :=
  path_join (target_dir class_key) "script.js".
Definition target_style (class_key : string) : string :=
  path_join (target_dir class_key) "style.css".

Definition customize_script (class_key : string) (cfg : config) (w : world) : outcome :=
  match read_file demo_script w with
  | None => Raised (FileNotFoundError demo_script) w
  | Some content =>
      write_file (target_dir class_key) (target_script class_key)
        (customize_text class_key cfg content) w
  end.

(** [copy_style] takes the key only and reads the name from [CLASSES];
    the file is read before the table is consulted. *)
Definition copy_style (class_key : string) (w : world) : outcome :=
  match read_file demo_style w with
  | None => Raised (FileNotFoundError demo_style) w
  | Some content =>
      match dict_get CLASSES class_key with
      | None => Raised (KeyError class_key) w
      | Some cfg =>
          write_file (target_dir class_key) (target_style class_key)
            (style_text cfg content) w
      end
  end.

(** The body of the loop of [__main__]. *)
Definition fix_page (kc : string * config) (w : world) : outcome :=
  match customize_script (fst kc) (snd kc) w with
  | Done w' => copy_style (fst kc) w'
  | Raised e w' => Raised e w'
  end.

Definition main (w : world) : outcome :=
  for_each fix_page CLASSES w.

(** The writes of a run over the entries [l] when the demo script holds
    [script] and the demo stylesheet holds [style]. *)
Definition jobs (l : list (string * config)) (script style : text) :
    list (string * string * text) :=
  flat_map (fun kc =>
    [ (target_dir (fst kc), target_script (fst kc),
       customize_text (fst kc) (snd kc) script);
      (target_dir (fst kc), target_style (fst kc), style_text (snd kc) style) ]) l.
End Run.

End FixAllPages.

(** ** Runs as lists of writes

    A run of a script whose demo files can be read amounts to a list of
    writes, each of a directory, a path and a content. *)
Definition run_jobs (js : list (string * string * text)) (w : world) : outcome :=
  for_each (fun j => write_file (fst (fst j)) (snd (fst j)) (snd j)) js w.

(** The files after the writes [js], the later write of a path winning. *)
Definition write_all (js : list (string * string * text)) (m : gmap string text) :
    gmap string text :=
  foldl (fun m j => <[snd (fst j) := snd j]> m) m js.

(** What [base_dir] contributes to a joined relative path. *)
Definition base_prefix (base : string) : string :=
  match base with
  | EmptyString => EmptyString
  | _ => if ends_with_sep base then base else base +:+ "/"
  end.

(** ** Texts of the scenarios *)

(** [const title = "Demo Class"; const endpoint = "/demo"; inputValues.userId;] *)
Definition demo_scenario : text :=
  lit "const title = " ++ dq :: lit "Demo Class" ++ dq :: lit "; const endpoint = "
  ++ dq :: lit "/demo" ++ dq :: lit "; inputValues.userId;".

(** [const title = "Cart Class"; const endpoint = "/cart"; inputValues.cartId;] *)
Definition cart_scenario : text :=
  lit "const title = " ++ dq :: lit "Cart Class" ++ dq :: lit "; const endpoint = "
  ++ dq :: lit "/cart" ++ dq :: lit "; inputValues.cartId;".

(** A file system that holds the demo script of the scenario and the
    directory of the cart page. *)
Definition scenario_world : world :=
  {| files := {[ CustomizeScripts.demo_path := demo_scenario ]};
     dirs := {[ "page/developer/edge-tests-cart" ]};
     written := [] |}.

(** ** The run as the specification describes it *)

(** The ten entity keys the specification lists. *)
Definition listed_keys : list string :=
  ["cart"; "wishlist"; "coupon"; "subscriptions"; "transactions";
   "gateway-1"; "gateway-2"; "media"; "products"; "orders"].

(** One run of [fix_all_pages.py] from [w] writes the script and the
    stylesheet of the page of [key]. *)
Definition produces_page_files (base_dir : string) (w : world) (key : string) : Prop :=
  ∃ w', FixAllPages.main base_dir w = Done w'
        ∧ FixAllPages.target_script base_dir key ∈ written w'
        ∧ FixAllPages.target_style base_dir key ∈ written w'.

(** A file system with both demo files and the directory of every listed
    page, below [/srv/page/developer/edge-tests]. *)
Definition pages_root : string := "/srv/page/developer/edge-tests".

Definition demo_style_text : text := lit "/* Demo Class (Template) */ .demo { color: red; }".

Definition full_world : world :=
  {| files := {[ FixAllPages.demo_script pages_root := demo_scenario;
                 FixAllPages.demo_style pages_root := demo_style_text ]};
     dirs := list_to_set (map (FixAllPages.target_dir pages_root) listed_keys);
     written := [] |}.


(** A file system for [customize_scripts.py]: the demo script of the scenario
    and the directory of every listed page. *)
Definition scripts_world : world :=
  {| files := {[ CustomizeScripts.demo_path := demo_scenario ]};
     dirs := list_to_set (map CustomizeScripts.target_dir listed_keys);
     written := [] |}.

(** ** Occurrence criteria

    Decidable conditions on patterns under which a replacement can be
    reasoned about for every input text. *)

(** [diverge a b]: [a] and [b] differ at a position both have, so neither is
    a prefix of the other. *)
Fixpoint diverge (a b : text) : bool :=
  match a, b with
  | x :: a', y :: b' => if Ascii.eqb x y then diverge a' b' else true
  | _, _ => false
  end.

(** The non-empty suffixes of a text, longest first. *)
Fixpoint nonempty_tails (l : text) : list text :=
  match l with
  | [] => []
  | _ :: t => l :: nonempty_tails t
  end.

(** [clean p new]: an occurrence of [p] can neither start inside a copy of
    [new] nor run into one.  Then replacing anything by [new] creates no
    occurrence of [p]. *)
Definition clean (p new : text) : bool :=
  match p with
  | [] => false
  | _ :: _ =>
      forallb (fun n => diverge n p) (nonempty_tails new)
      && forallb (fun q => diverge q new) (nonempty_tails p)
  end.

(** [p] starts somewhere in [s] at a position where [old] does not. *)
Fixpoint contains_unmatched (old p s : text) : bool :=
  match s with
  | [] => false
  | _ :: t => (startswith p s && negb (startswith old s)) || contains_unmatched old p t
  end.

(** [absent_after p rs a]: a sufficient check that [p] does not occur in the
    result of the replacement list [rs]; [a] tells whether [p] is already
    known to be absent from the input. *)
Fixpoint absent_after (p : text) (rs : list (text * text)) (a : bool) : bool :=
  match rs with
  | [] => a
  | (old, new) :: rs' =>
      match old with
      | [] => false
      | _ :: _ =>
          if clean p new then absent_after p rs' (a || bool_decide (old = p))
          else absent_after p rs' false
      end
  end.

(** ** Replacement of every occurrence, as the specification words it

    [every_occurrence_replaced old new s r]: [r] is [s] with every occurrence
    of [old], taken from the left, replaced by [new], and every other part
    of [s] copied as it is.  This definition follows the words of the
    specification and is compared below with [replace]. *)

(** [old] starts at no position of [seg], when [seg] is followed by [after]. *)
Definition starts_nowhere_in (old seg after : text) : bool :=
  forallb (fun t => negb (startswith old (t ++ after))) (nonempty_tails seg).

Inductive every_occurrence_replaced (old new : text) : text → text → Prop :=
  | eor_verbatim (s : text) :
      contains old s = false →
      every_occurrence_replaced old new s s
  | eor_occurrence (seg rest r : text) :
      starts_nowhere_in old seg (old ++ rest) = true →
      every_occurrence_replaced old new rest r →
      every_occurrence_replaced old new (seg ++ old ++ rest) (seg ++ new ++ r).

(** ** Isolated occurrences

    Decidable conditions under which a piece [mid] of a text is rewritten by
    a list of rules independently of what stands before and after it. *)

(** No match of [old] lies across the junction of [l] and [r]. *)
Definition no_straddle (old l r : text) : Prop :=
  ∀ a b, a ≠ [] → b ≠ [] → old = a ++ b → ¬ (a `suffix_of` l ∧ b `prefix_of` r).

(** The ways to cut [b] in two non-empty parts, the first part appended to
    [a]. *)
Fixpoint proper_splits_go (a b : text) : list (text * text) :=
  match b with
  | [] => []
  | c :: b' =>
      match b' with
      | [] => []
      | _ :: _ => (a ++ [c], b') :: proper_splits_go (a ++ [c]) b'
      end
  end.

Definition proper_splits (old : text) : list (text * text) := proper_splits_go [] old.

(** No match of [old] can begin before [mid] and end in or after it, unless
    what precedes [mid] ends with one of the texts [forb] or holds one of the
    texts [gone]. *)
Definition left_free (old mid : text) (forb gone : list text) : bool :=
  forallb (fun ab => diverge (snd ab) mid
                     || existsb (fun f => startswith (rev f) (rev (fst ab))) forb
                     || existsb (fun g => contains g (fst ab)) gone)
    (proper_splits old).

(** No match of [old] can begin in [mid] and end after it, unless what
    follows [mid] starts with one of the texts [forb] or holds one of the
    texts [gone]. *)
Definition right_free (old mid : text) (forb gone : list text) : bool :=
  forallb (fun ab => negb (startswith (rev (fst ab)) (rev mid))
                     || existsb (fun f => startswith f (snd ab)) forb
                     || existsb (fun g => contains g (snd ab)) gone)
    (proper_splits old).

(** The texts known to be absent after the rule [(old, new)], given those
    absent before it. *)
Definition gone_after (old new : text) (gone : list text) : list text :=
  (if clean old new then [old] else []) ++ filter (fun g => clean g new = true) gone.

(** Replacing by [new] cannot make a text start with one of [forb]. *)
Definition forb_kept (new : text) (forb : list text) : bool :=
  forallb (fun f => forallb (fun q => diverge q new) (nonempty_tails f)) forb.

(** Replacing by [new] cannot make a text end with one of [forb]. *)
Definition forb_kept_left (new : text) (forb : list text) : bool :=
  forallb (fun f => forallb (fun q => diverge q (rev new)) (nonempty_tails (rev f))) forb.

(** [isolated rs mid before after gone]: through every rule of [rs], [mid]
    is rewritten on its own, provided the text before it ends with none of
    [before], the text after it starts with none of [after], and neither
    holds one of [gone]. *)
Fixpoint isolated (rs : list (text * text)) (mid : text)
    (before after gone : list text) : bool :=
  match rs with
  | [] => true
  | (old, new) :: rs' =>
      negb (bool_decide (old = []))
      && left_free old mid before gone
      && right_free old mid after gone
      && forb_kept_left new before
      && forb_kept new after
      && isolated rs' (replace old new mid) before after (gone_after old new gone)
  end.

(** ** The guarded identifier-field steps as rules

    When [id_field] differs from [userId], the guarded steps of
    [customize_scripts.py] and [fix_all_pages.py] are two more rules applied
    after the list [replacements]. *)
Definition scripts_id_rules (cfg : CustomizeScripts.config) : list (text * text) :=
  [ (lit "inputValues.userId", lit "inputValues." ++ lit (CustomizeScripts.id_field cfg));
    (lit "{userId}", lit "{" ++ lit (CustomizeScripts.id_field cfg) ++ lit "}") ].

Definition scripts_rules (cfg : CustomizeScripts.config) : list (text * text) :=
  CustomizeScripts.replacements cfg ++ scripts_id_rules cfg.

Definition pages_id_rules (cfg : FixAllPages.config) : list (text * text) :=
  [ (lit "inputValues.userId", lit "inputValues." ++ lit (FixAllPages.id_field cfg));
    (lit "'userId'", lit "'" ++ lit (FixAllPages.id_field cfg) ++ lit "'") ].

Definition pages_rules (class_key : string) (cfg : FixAllPages.config) : list (text * text) :=
  FixAllPages.replacements class_key cfg ++ pages_id_rules cfg.

(** ** A finer criterion

    A copy of [new] may end with the beginning of [p] when that ending also
    ends [old]: an occurrence of [p] that starts there was already in the
    text, across the end of the match of [old]. *)
Definition tail_ok (old p n : text) : bool :=
  diverge n p || (startswith n p && startswith (rev n) (rev old)).

(** [clean_for old p new]: replacing [old] by [new] creates no occurrence of
    [p]. *)
Definition clean_for (old p new : text) : bool :=
  match p with
  | [] => false
  | _ :: _ =>
      forallb (tail_ok old p) (nonempty_tails new)
      && forallb (fun q => diverge q new) (nonempty_tails p)
  end.

(** [absent_after] with the finer criterion. *)
Fixpoint absent_after_for (p : text) (rs : list (text * text)) (a : bool) : bool :=
  match rs with
  | [] => a
  | (old, new) :: rs' =>
      match old with
      | [] => false
      | _ :: _ =>
          if bool_decide (old = p) && clean p new then absent_after_for p rs' true
          else if clean_for old p new then absent_after_for p rs' a
          else absent_after_for p rs' false
      end
  end.

(** The writes of a run of [customize_all.py] over the entries [l] when the
    demo script holds [content]. *)
Definition all_jobs (base_dir : string) (l : list (string * CustomizeAll.config))
    (content : text) : list (string * string * text) :=
  map (fun kc => (CustomizeAll.target_dir base_dir (fst kc),
                  CustomizeAll.target_path base_dir (fst kc),
                  CustomizeAll.customize_text (fst kc) (snd kc) content)) l.

(** * Properties of the text operations *)

Section Replace.
Variables old new : text.

Lemma startswith_spec (p s : text) :
  startswith p s = true ↔ ∃ r, s = p ++ r.
Proof.
  revert s; induction p as [|a p IH]; intros s; simpl.
  - split; eauto.
  - destruct s as [|b s]; simpl.
    + split; [discriminate | intros [r Hr]; discriminate].
    + rewrite andb_true_iff, IH. split.
      * intros [Hab [r ->]]. apply Ascii.eqb_eq in Hab as ->. eauto.
      * intros [r Hr]. injection Hr as -> ->. split; [apply Ascii.eqb_refl | eauto].
Qed.

Lemma startswith_app (p r : text) : startswith p (p ++ r) = true.
Proof. apply startswith_spec; eauto. Qed.

Lemma diverge_startswith (a b x : text) :
  diverge a b = true → startswith b (a ++ x) = false.
Proof.
  revert b; induction a as [|c a IH]; intros [|d b]; simpl; try discriminate.
  rewrite (Ascii.eqb_sym d c).
  destruct (Ascii.eqb c d); [intros H; rewrite IH by done; done | done].
Qed.

Lemma diverge_startswith' (a b x : text) :
  diverge a b = true → startswith a (b ++ x) = false.
Proof.
  revert b; induction a as [|c a IH]; intros [|d b]; simpl; try discriminate.
  destruct (Ascii.eqb c d); [intros H; rewrite IH by done; done | done].
Qed.

Lemma contains_spec (p s : text) :
  contains p s = true ↔ ∃ l r, s = l ++ p ++ r.
Proof.
  induction s as [|c s IH]; simpl.
  - rewrite startswith_spec. split.
    + intros [r Hr]. exists [], r. done.
    + intros (l & r & Hlr). symmetry in Hlr.
      apply app_eq_nil in Hlr as [-> Hlr]. apply app_eq_nil in Hlr as [-> ->].
      exists []. done.
  - rewrite orb_true_iff, IH, startswith_spec. split.
    + intros [[r Hr]|(l & r & Hlr)].
      * exists [], r. done.
      * exists (c :: l), r. by rewrite Hlr.
    + intros (l & r & Hlr). destruct l as [|c' l].
      * left. exists r. done.
      * right. injection Hlr as _ Hlr. eauto.
Qed.

Lemma replace_go_skip (k : nat) (s : text) :
  replace_go old new k s = replace_go old new 0 (drop k s).
Proof.
  revert k; induction s as [|c s IH]; intros [|k]; simpl; auto.
Qed.

(** What starts the result of a replacement started the input, when the
    pattern and its suffixes cannot run into [new]. *)
Lemma startswith_replace_go (p s : text) :
  forallb (fun q => diverge q new) (nonempty_tails p) = true →
  startswith p (replace_go old new 0 s) = true →
  startswith p s = true ∧ (p ≠ [] → startswith old s = false).
Proof.
  revert s; induction p as [|a p IH]; intros s Hp; [done|].
  simpl in Hp. apply andb_true_iff in Hp as [Hd Hp].
  destruct s as [|c s]; [done|].
  cbn [replace_go]. destruct (startswith old (c :: s)) eqn:Hm.
  - intros H. by rewrite (diverge_startswith' (a :: p) new) in H.
  - cbn [startswith]. intros [Hac H]%andb_true_iff.
    destruct (IH s Hp H) as [H1 _]. by rewrite Hac, H1.
Qed.

Lemma contains_app_clean (p x : text) :
  forallb (fun n => diverge n p) (nonempty_tails new) = true →
  contains p (new ++ x) = contains p x.
Proof.
  induction new as [|c n IH]; [done|].
  cbn [nonempty_tails forallb]. intros [Hd Hn]%andb_true_iff.
  cbn [app contains]. change (c :: n ++ x) with ((c :: n) ++ x).
  rewrite (diverge_startswith (c :: n) p) by done. by apply IH.
Qed.

(** An occurrence of a clean pattern in the result comes from an
    occurrence in the input that no match of [old] starts at. *)
Lemma contains_replace_go (p s : text) (k : nat) :
  clean p new = true →
  contains p (replace_go old new k s) = true →
  contains_unmatched old p s = true.
Proof.
  intros Hc. destruct p as [|a p]; [done|].
  apply andb_true_iff in Hc as [Hin Hout].
  revert k; induction s as [|c s IH]; intros k; [done|].
  destruct k as [|k]; cbn [replace_go contains_unmatched].
  - destruct (startswith old (c :: s)) eqn:Hm.
    + rewrite contains_app_clean by done. intros H%IH. by rewrite H, orb_true_r.
    + cbn [contains]. intros [H|H%IH]%orb_true_iff; [|by rewrite H, orb_true_r].
      assert (startswith (a :: p) (replace_go old new 0 (c :: s)) = true) as H'.
      { cbn [replace_go]. by rewrite Hm. }
      apply startswith_replace_go in H' as [-> _]; done.
  - intros H%IH. by rewrite H, orb_true_r.
Qed.

Lemma contains_unmatched_contains (p s : text) :
  contains_unmatched old p s = true → contains p s = true.
Proof.
  induction s as [|c s IH]; [done|]. simpl.
  intros [[-> _]%andb_true_iff|H%IH]%orb_true_iff; [done|].
  by rewrite H, orb_true_r.
Qed.

Lemma contains_unmatched_self (s : text) : contains_unmatched old old s = false.
Proof.
  induction s as [|c s IH]; [done|]. simpl. rewrite IH.
  by destruct (startswith old (c :: s)).
Qed.

Lemma replace_nonempty (s : text) :
  old ≠ [] → replace old new s = replace_go old new 0 s.
Proof. unfold replace. by destruct old. Qed.

(** Replacing by a clean [new] creates no occurrence of [p]. *)
Lemma replace_creates_none (p s : text) :
  old ≠ [] → clean p new = true →
  contains p s = false → contains p (replace old new s) = false.
Proof.
  intros Ho Hc Hs. rewrite replace_nonempty by done.
  destruct (contains p (replace_go old new 0 s)) eqn:H; [|done].
  apply contains_replace_go, contains_unmatched_contains in H; [|done]. congruence.
Qed.

(** A rule whose [new] is clean for its own [old] leaves no [old]. *)
Lemma replace_kills (s : text) :
  old ≠ [] → clean old new = true → contains old (replace old new s) = false.
Proof.
  intros Ho Hc. rewrite replace_nonempty by done.
  destruct (contains old (replace_go old new 0 s)) eqn:H; [|done].
  apply contains_replace_go in H; [|done]. by rewrite contains_unmatched_self in H.
Qed.
(** A text without [old] is copied as it is. *)
Lemma replace_go_absent (s : text) :
  contains old s = false → replace_go old new 0 s = s.
Proof.
  induction s as [|c s IH]; [done|]. cbn [contains replace_go].
  intros [-> Hs]%orb_false_iff. by rewrite IH.
Qed.

Lemma first_occurrence (s : text) :
  contains old s = true →
  ∃ seg rest, s = seg ++ old ++ rest ∧ starts_nowhere_in old seg (old ++ rest) = true.
Proof.
  induction s as [|c s IH]; cbn [contains].
  - intros [r Hr]%startswith_spec. exists [], r. done.
  - destruct (startswith old (c :: s)) eqn:Hm.
    + intros _. apply startswith_spec in Hm as [r Hr]. exists [], r. done.
    + intros (seg & rest & -> & Hseg)%IH. exists (c :: seg), rest. split; [done|].
      unfold starts_nowhere_in. cbn [nonempty_tails forallb].
      change ((c :: seg) ++ old ++ rest) with (c :: seg ++ old ++ rest).
      by rewrite Hm.
Qed.

Lemma replace_go_match (s : text) :
  old ≠ [] → startswith old s = true →
  replace_go old new 0 s = new ++ replace_go old new 0 (drop (length old) s).
Proof.
  intros Ho Hm.
  assert (∃ n, length old = S n) as [n Hn] by (destruct old; [done|eauto]).
  destruct s as [|c s]; [by destruct old|].
  cbn [replace_go]. rewrite Hm, replace_go_skip, Hn. simpl.
  by rewrite Nat.sub_0_r.
Qed.

Lemma replace_go_first (seg rest : text) :
  old ≠ [] →
  starts_nowhere_in old seg (old ++ rest) = true →
  replace_go old new 0 (seg ++ old ++ rest) = seg ++ new ++ replace_go old new 0 rest.
Proof.
  intros Ho. induction seg as [|c seg IH].
  - intros _. cbn [app]. rewrite replace_go_match by (done || apply startswith_app).
    by rewrite drop_app_length.
  - unfold starts_nowhere_in. cbn [nonempty_tails forallb].
    intros [Hm Hseg]%andb_true_iff. apply negb_true_iff in Hm.
    change ((c :: seg) ++ old ++ rest) with (c :: seg ++ old ++ rest) in *.
    cbn [replace_go]. rewrite Hm. by rewrite IH.
Qed.

(** [replace] computes what the specification describes. *)
Lemma replace_every_occurrence (s : text) :
  old ≠ [] → every_occurrence_replaced old new s (replace old new s).
Proof.
  intros Ho. rewrite replace_nonempty by done.
  remember (length s) as n eqn:Hn. revert s Hn.
  induction n as [n IH] using lt_wf_ind. intros s ->.
  destruct (contains old s) eqn:Hc.
  - destruct (first_occurrence s Hc) as (seg & rest & -> & Hseg).
    rewrite replace_go_first by done. apply eor_occurrence; [done|].
    apply (IH (length rest)); [|done].
    rewrite !length_app. destruct old; [done|]. simpl. lia.
  - rewrite replace_go_absent by done. by apply eor_verbatim.
Qed.
End Replace.

Lemma absent_after_sound (p : text) (rs : list (text * text)) (a : bool) (s : text) :
  absent_after p rs a = true →
  (a = true → contains p s = false) →
  contains p (apply_replacements rs s) = false.
Proof.
  unfold apply_replacements.
  revert a s; induction rs as [|[old new] rs IH]; intros a s; simpl.
  - intros -> H. by apply H.
  - destruct old as [|o old'] eqn:E; [done|]. rewrite <- E.
    assert (old ≠ []) as Ho by (by rewrite E).
    destruct (clean p new) eqn:Hc; intros Ha Hs.
    + apply (IH _ _ Ha). intros [Ht | Hp%bool_decide_eq_true]%orb_true_iff.
      * apply replace_creates_none; auto.
      * subst p. by apply replace_kills.
    + by apply (IH _ _ Ha).
Qed.

Section Unique.
Variables old new : text.


End Unique.

(** ** Junctions and isolated occurrences *)

Section Split.
Variables old new : text.

Lemma startswith_prefix_of (p s : text) : startswith p s = true ↔ p `prefix_of` s.
Proof. apply startswith_spec. Qed.

Lemma no_straddle_tail (c : ascii) (l r : text) :
  no_straddle old (c :: l) r → no_straddle old l r.
Proof.
  intros H a b Ha Hb E [Hs Hp]. apply (H a b Ha Hb E). split; [|done].
  by apply suffix_cons_r.
Qed.

Lemma startswith_app_no_straddle (l r : text) :
  l ≠ [] → no_straddle old l r →
  startswith old (l ++ r) = startswith old l.
Proof.
  intros Hl H. destruct (startswith old l) eqn:E.
  - apply startswith_prefix_of. apply startswith_prefix_of in E.
    by apply prefix_app_r.
  - destruct (startswith old (l ++ r)) eqn:E'; [|done]. exfalso.
    apply startswith_prefix_of in E' as [x Hx].
    apply app_eq_inv in Hx as [(k & -> & _)|(k & -> & ->)].
    + by rewrite startswith_app in E.
    + destruct k as [|c k].
      * rewrite app_nil_r in E.
        assert (startswith l l = true) by (by apply startswith_prefix_of). congruence.
      * apply (H l (c :: k)); [done..|]. split; [done|]. by apply prefix_app_r.
Qed.

Lemma replace_go_app (l r : text) (k : nat) :
  old ≠ [] → no_straddle old l r → k ≤ length l →
  replace_go old new k (l ++ r) = replace_go old new k l ++ replace_go old new 0 r.
Proof.
  intros Ho. revert k. induction l as [|c l IH]; intros k H Hk.
  - cbn in Hk. by replace k with 0 by lia.
  - pose proof (no_straddle_tail _ _ _ H) as H'.
    destruct k as [|k]; cbn [app replace_go].
    + change (c :: l ++ r) with ((c :: l) ++ r).
      rewrite startswith_app_no_straddle by done.
      destruct (startswith old (c :: l)) eqn:E.
      * rewrite IH, app_assoc; [done|done|].
        apply startswith_prefix_of, prefix_length in E. cbn in E. lia.
      * rewrite IH; [done|done|lia].
    + apply IH; [done|]. cbn in Hk. lia.
Qed.

(** [replace] distributes over a junction that no match lies across. *)
Lemma replace_app (l r : text) :
  old ≠ [] → no_straddle old l r →
  replace old new (l ++ r) = replace old new l ++ replace old new r.
Proof.
  intros Ho H. rewrite !replace_nonempty by done. apply replace_go_app; [done..|lia].
Qed.
End Split.

Lemma proper_splits_go_spec (acc x y : text) :
  x ≠ [] → y ≠ [] → (acc ++ x, y) ∈ proper_splits_go acc (x ++ y).
Proof.
  revert acc. induction x as [|c x IH]; intros acc Hx Hy; [done|].
  cbn [app proper_splits_go]. destruct x as [|d x].
  - destruct y as [|e y]; [done|]. cbn [app]. apply elem_of_cons. by left.
  - cbn [app]. apply elem_of_cons. right.
    replace (acc ++ c :: d :: x) with ((acc ++ [c]) ++ d :: x) by (by rewrite <- app_assoc).
    by apply (IH (acc ++ [c])).
Qed.

Lemma proper_splits_spec (a b : text) :
  a ≠ [] → b ≠ [] → (a, b) ∈ proper_splits (a ++ b).
Proof. intros. by apply (proper_splits_go_spec []). Qed.

Lemma rev_prefix_suffix (f a : text) : rev f `prefix_of` rev a ↔ f `suffix_of` a.
Proof.
  split; intros [k Hk].
  - exists (rev k). apply (f_equal (@rev ascii)) in Hk.
    by rewrite rev_app_distr, !rev_involutive in Hk.
  - exists (rev k). by rewrite Hk, rev_app_distr.
Qed.

Lemma contains_suffix (g a s : text) :
  contains g a = true → a `suffix_of` s → contains g s = true.
Proof.
  intros (l & r & ->)%contains_spec [k ->]. apply contains_spec.
  exists (k ++ l), r. by rewrite <- app_assoc.
Qed.

Lemma contains_prefix (g b s : text) :
  contains g b = true → b `prefix_of` s → contains g s = true.
Proof.
  intros (l & r & ->)%contains_spec [k ->]. apply contains_spec.
  exists l, (r ++ k). by rewrite <- !app_assoc.
Qed.

Lemma left_free_sound (old mid pre post : text) (forb gone : list text) :
  left_free old mid forb gone = true →
  Forall (fun f => ¬ f `suffix_of` pre) forb →
  Forall (fun g => contains g pre = false) gone →
  no_straddle old pre (mid ++ post).
Proof.
  intros H Hforb Hgone a b Ha Hb -> [Hs Hp]. unfold left_free in H.
  rewrite forallb_forall in H.
  assert (In (a, b) (proper_splits (a ++ b))) as Hin.
  { apply list_elem_of_In. by apply proper_splits_spec. }
  apply H in Hin. cbn [fst snd] in Hin. clear H.
  apply orb_true_iff in Hin as [[H'|H']%orb_true_iff|H'].
  - apply startswith_prefix_of in Hp. by rewrite diverge_startswith' in Hp.
  - apply existsb_exists in H' as (f & Hf%list_elem_of_In & Hfa).
    rewrite Forall_forall in Hforb. apply (Hforb f Hf).
    apply startswith_prefix_of, rev_prefix_suffix in Hfa. by etrans.
  - apply existsb_exists in H' as (g & Hg%list_elem_of_In & Hga).
    rewrite Forall_forall in Hgone. specialize (Hgone g Hg).
    by rewrite (contains_suffix _ _ _ Hga Hs) in Hgone.
Qed.

Lemma right_free_sound (old mid post : text) (forb gone : list text) :
  right_free old mid forb gone = true →
  Forall (fun f => startswith f post = false) forb →
  Forall (fun g => contains g post = false) gone →
  no_straddle old mid post.
Proof.
  intros H Hforb Hgone a b Ha Hb -> [Hs Hp]. unfold right_free in H.
  rewrite forallb_forall in H.
  assert (In (a, b) (proper_splits (a ++ b))) as Hin.
  { apply list_elem_of_In. by apply proper_splits_spec. }
  apply H in Hin. cbn [fst snd] in Hin. clear H.
  apply orb_true_iff in Hin as [[H|H]%orb_true_iff|H].
  - apply negb_true_iff in H. destruct Hs as [k ->].
    by rewrite rev_app_distr, startswith_app in H.
  - apply existsb_exists in H as (f & Hf%list_elem_of_In & Hfb).
    rewrite Forall_forall in Hforb. specialize (Hforb f Hf).
    apply startswith_prefix_of in Hfb. assert (f `prefix_of` post) as Hfp by (by etrans).
    apply startswith_prefix_of in Hfp. congruence.
  - apply existsb_exists in H as (g & Hg%list_elem_of_In & Hgb).
    rewrite Forall_forall in Hgone. specialize (Hgone g Hg).
    by rewrite (contains_prefix _ _ _ Hgb Hp) in Hgone.
Qed.

Lemma gone_after_sound (old new s : text) (gone : list text) :
  old ≠ [] →
  Forall (fun g => contains g s = false) gone →
  Forall (fun g => contains g (replace old new s) = false) (gone_after old new gone).
Proof.
  intros Ho Hgone. unfold gone_after. apply Forall_app. split.
  - destruct (clean old new) eqn:E; [|by apply Forall_nil].
    apply Forall_cons. split; [by apply replace_kills|by apply Forall_nil].
  - rewrite Forall_forall in Hgone. apply Forall_forall.
    intros g [Hc Hg]%list_elem_of_filter. apply replace_creates_none; auto.
Qed.

Lemma forb_kept_sound (old new post : text) (forb : list text) :
  old ≠ [] → forb_kept new forb = true →
  Forall (fun f => startswith f post = false) forb →
  Forall (fun f => startswith f (replace old new post) = false) forb.
Proof.
  intros Ho H. unfold forb_kept in H. rewrite forallb_forall in H.
  rewrite !Forall_forall. intros Hforb f Hf. rewrite replace_nonempty by done.
  destruct (startswith f (replace_go old new 0 post)) eqn:E; [|done].
  apply startswith_replace_go in E as [E _].
  - by rewrite Hforb in E.
  - apply H. by apply list_elem_of_In.
Qed.

Lemma replace_nil (old new : text) : old ≠ [] → replace old new [] = [].
Proof. intros. by rewrite replace_nonempty. Qed.

Lemma apply_replacements_cons (old new : text) (rs : list (text * text)) (s : text) :
  apply_replacements ((old, new) :: rs) s = apply_replacements rs (replace old new s).
Proof. done. Qed.

Lemma diverge_not_prefix (a b : text) :
  diverge a b = true → ¬ a `prefix_of` b ∧ ¬ b `prefix_of` a.
Proof.
  intros H. split; intros Hp%startswith_prefix_of.
  - by rewrite <- (app_nil_r b), diverge_startswith' in Hp.
  - by rewrite <- (app_nil_r a), diverge_startswith in Hp.
Qed.

Lemma nonempty_tails_spec (x y : text) : y ≠ [] → y ∈ nonempty_tails (x ++ y).
Proof.
  intros Hy. induction x as [|c x IH]; cbn [app nonempty_tails].
  - destruct y; [done|]. apply elem_of_cons. by left.
  - apply elem_of_cons. by right.
Qed.

(** What ends the result of a replacement ended the input, when no
    non-empty prefix of it can end where a copy of [new] ends. *)
Lemma suffix_replaced (old new p s r : text) :
  forallb (fun q => diverge q (rev new)) (nonempty_tails (rev p)) = true →
  every_occurrence_replaced old new s r →
  p `suffix_of` r → p `suffix_of` s.
Proof.
  intros Hp Hr. induction Hr as [s Hs|seg rest r Hseg Hrest IH]; [done|].
  intros [k Hk]. rewrite (app_assoc seg new r) in Hk.
  apply app_eq_inv in Hk as [(k' & Hk' & ->)|(k' & -> & Hk')].
  - destruct k' as [|c k'].
    + rewrite !app_assoc. apply suffix_app_r, IH. by exists [].
    + exfalso. rewrite forallb_forall in Hp.
      assert (diverge (rev (c :: k')) (rev new) = true) as Hd.
      { apply Hp, list_elem_of_In. rewrite rev_app_distr.
        apply nonempty_tails_spec. cbn [rev]. by destruct (rev k'). }
      apply diverge_not_prefix in Hd as [H1 H2].
      symmetry in Hk'. apply app_eq_inv in Hk' as [(m & _ & Hm)|(m & _ & Hm)].
      * apply H1. apply rev_prefix_suffix. rewrite Hm. by exists m.
      * apply H2. apply rev_prefix_suffix. rewrite Hm. by exists m.
  - rewrite !app_assoc. apply suffix_app_r, IH. by exists k'.
Qed.

Lemma forb_kept_left_sound (old new pre : text) (forb : list text) :
  old ≠ [] → forb_kept_left new forb = true →
  Forall (fun f => ¬ f `suffix_of` pre) forb →
  Forall (fun f => ¬ f `suffix_of` replace old new pre) forb.
Proof.
  intros Ho H. unfold forb_kept_left in H. rewrite forallb_forall in H.
  rewrite !Forall_forall. intros Hforb f Hf Hs. apply (Hforb f Hf).
  eapply suffix_replaced; [|by apply replace_every_occurrence|done].
  apply H. by apply list_elem_of_In.
Qed.

(** An isolated piece is rewritten on its own, whatever surrounds it. *)
Lemma isolated_sound (rs : list (text * text)) (mid : text)
    (before after gone : list text) (pre post : text) :
  isolated rs mid before after gone = true →
  Forall (fun f => ¬ f `suffix_of` pre) before →
  Forall (fun f => startswith f post = false) after →
  Forall (fun g => contains g pre = false) gone →
  Forall (fun g => contains g post = false) gone →
  apply_replacements rs (pre ++ mid ++ post)
  = apply_replacements rs pre ++ apply_replacements rs mid ++ apply_replacements rs post.
Proof.
  revert mid pre post gone.
  induction rs as [|[old new] rs IH]; intros mid pre post gone; [done|].
  cbn [isolated]. rewrite !andb_true_iff, negb_true_iff, bool_decide_eq_false.
  intros [[[[[Ho Hl] Hr] Hkl] Hk] Hrest] Hbefore Hafter Hgpre Hgpost.
  rewrite !apply_replacements_cons.
  assert (replace old new (pre ++ mid ++ post)
          = replace old new pre ++ replace old new mid ++ replace old new post) as ->.
  { rewrite <- (replace_app old new mid post) by (done || by eapply right_free_sound).
    apply replace_app; [done|]. by eapply left_free_sound. }
  apply (IH _ _ _ _ Hrest);
    [by apply forb_kept_left_sound|by apply forb_kept_sound|
     by apply gone_after_sound|by apply gone_after_sound].
Qed.

(** * Properties of paths and runs *)

Lemma string_app_assoc (a b c : string) : (a +:+ b) +:+ c = a +:+ (b +:+ c).
Proof.
  induction a as [|x a IH]; [done|].
  change (String x ((a +:+ b) +:+ c) = String x (a +:+ b +:+ c)). by rewrite IH.
Qed.

Lemma ends_with_sep_app (a b : string) :
  b ≠ EmptyString → ends_with_sep (a +:+ b) = ends_with_sep b.
Proof.
  intros Hb. induction a as [|x a IH]; [done|].
  change (ends_with_sep (String x (a +:+ b)) = ends_with_sep b).
  cbn [ends_with_sep]. destruct (a +:+ b) eqn:E; [|done].
  destruct a; cbv beta iota delta [String.append] in E; [congruence | discriminate].
Qed.

Lemma path_join_relative (base b : string) :
  String.prefix "/" b = false → path_join base b = base_prefix base +:+ b.
Proof.
  intros Hb. unfold path_join, base_prefix. rewrite Hb.
  destruct base as [|x base]; [done|].
  destruct (ends_with_sep (String x base)); [done|]. by rewrite string_app_assoc.
Qed.

(** [os.path.join(base_dir, d, f)] for a directory name [d] and a file name
    [f] that hold no separator at their ends. *)
Lemma path_join_two (base d f : string) :
  d ≠ EmptyString → String.prefix "/" d = false → ends_with_sep d = false →
  String.prefix "/" f = false →
  path_join (path_join base d) f = base_prefix base +:+ d +:+ "/" +:+ f.
Proof.
  intros Hd Hd1 Hd2 Hf. rewrite (path_join_relative base d) by done.
  unfold path_join at 1. rewrite Hf.
  destruct (base_prefix base +:+ d) eqn:E.
  - destruct (base_prefix base);
      cbv beta iota delta [String.append] in E; [congruence | discriminate].
  - rewrite <- E, ends_with_sep_app, Hd2 by done. by rewrite string_app_assoc.
Qed.

Section Runs.
Implicit Types (js : list (string * string * text)) (w : world).

Lemma run_jobs_done js w :
  Forall (fun j => fst (fst j) ∈ dirs w) js →
  run_jobs js w =
    Done {| files := write_all js (files w);
            dirs := dirs w;
            written := written w ++ map (fun j => snd (fst j)) js |}.
Proof.
  unfold run_jobs, write_all. revert w.
  induction js as [|[[d p] c] js IH]; intros w Hjs; cbn [for_each foldl map].
  - rewrite app_nil_r. by destruct w.
  - apply Forall_cons in Hjs as [Hd Hjs]. cbn [fst snd] in *.
    unfold write_file. rewrite decide_True by done.
    rewrite IH by done. cbn [files dirs written].
    by rewrite <- app_assoc.
Qed.

Lemma write_all_lookup_notin js (m : gmap string text) (p : string) :
  p ∉ map (fun j => snd (fst j)) js → write_all js m !! p = m !! p.
Proof.
  unfold write_all. revert m.
  induction js as [|[[d q] c] js IH]; intros m; cbn [foldl map fst snd]; [done|].
  intros [Hq Hp]%not_elem_of_cons. rewrite IH by done. by rewrite lookup_insert_ne.
Qed.

(** Writing the same list a second time changes nothing. *)
Lemma write_all_twice js (m : gmap string text) :
  write_all js (write_all js m) = write_all js m.
Proof.
  apply map_eq. intros p.
  assert (∀ js1 m1 m2, (∀ q, q ∉ map (fun j => snd (fst j)) js1 → m1 !! q = m2 !! q) →
            ∀ q, write_all js1 m1 !! q = write_all js1 m2 !! q) as Hext.
  { unfold write_all. induction js1 as [|[[d q] c] js1 IH]; intros m1 m2 H q'.
    - apply H. cbn. apply not_elem_of_nil.
    - cbn [foldl fst snd]. apply IH. intros q'' Hq''.
      destruct (decide (q = q'')) as [->|Hne].
      + by rewrite !lookup_insert_eq.
      + rewrite !lookup_insert_ne by done. apply H. cbn.
        apply not_elem_of_cons. split; [done|done]. }
  apply Hext. intros q Hq. by apply write_all_lookup_notin.
Qed.
End Runs.

Lemma write_file_done (d p : string) (c : text) (w w' : world) :
  write_file d p c w = Done w' →
  files w' = <[p := c]> (files w) ∧ dirs w' = dirs w ∧ written w' = written w ++ [p].
Proof. unfold write_file. case_decide; [|done]. by intros [= <-]. Qed.

Lemma write_file_raised (d p : string) (c : text) (w w' : world) (e : exn) :
  write_file d p c w = Raised e w' → w' = w ∧ d ∉ dirs w.
Proof. unfold write_file. case_decide; [done|]. by intros [= <- <-]. Qed.

(** A run of [customize_scripts.py] whose demo script can be read is the list
    of its writes. *)
Lemma customize_scripts_jobs (l : list (string * CustomizeScripts.config))
    (content : text) (w : world) :
  read_file CustomizeScripts.demo_path w = Some content →
  Forall (fun kc => CustomizeScripts.target_path (fst kc) ≠ CustomizeScripts.demo_path) l →
  for_each (fun kc => CustomizeScripts.customize_script (fst kc) (snd kc)) l w
  = run_jobs (CustomizeScripts.jobs l content) w.
Proof.
  unfold run_jobs. revert w.
  induction l as [|[k cfg] l IH]; intros w Hread Hl; [done|].
  apply Forall_cons in Hl as [Hk Hl]. cbn [fst snd] in Hk.
  cbn [for_each CustomizeScripts.jobs map fst snd].
  unfold CustomizeScripts.customize_script at 1. rewrite Hread.
  destruct (write_file _ _ _ w) as [w'|e w'] eqn:Hw; [|done].
  apply IH; [|done]. apply write_file_done in Hw as (Hf & _ & _).
  unfold read_file in *. by rewrite Hf, lookup_insert_ne.
Qed.

(** The same for [fix_all_pages.py], with two writes for every entry. *)
Lemma fix_all_pages_jobs (base_dir : string) (l : list (string * FixAllPages.config))
    (script style : text) (w : world) :
  read_file (FixAllPages.demo_script base_dir) w = Some script →
  read_file (FixAllPages.demo_style base_dir) w = Some style →
  Forall (fun kc =>
    dict_get FixAllPages.CLASSES (fst kc) = Some (snd kc)
    ∧ FixAllPages.target_script base_dir (fst kc) ≠ FixAllPages.demo_script base_dir
    ∧ FixAllPages.target_script base_dir (fst kc) ≠ FixAllPages.demo_style base_dir
    ∧ FixAllPages.target_style base_dir (fst kc) ≠ FixAllPages.demo_script base_dir
    ∧ FixAllPages.target_style base_dir (fst kc) ≠ FixAllPages.demo_style base_dir) l →
  for_each (FixAllPages.fix_page base_dir) l w
  = run_jobs (FixAllPages.jobs base_dir l script style) w.
Proof.
  unfold run_jobs. revert w.
  induction l as [|[k cfg] l IH]; intros w Hscript Hstyle Hl; [done|].
  apply Forall_cons in Hl as [(Hk & H1 & H2 & H3 & H4) Hl]. cbn [fst snd] in *.
  cbn [for_each FixAllPages.jobs flat_map app fst snd].
  unfold FixAllPages.fix_page, FixAllPages.customize_script at 1. cbn [fst snd].
  rewrite Hscript.
  destruct (write_file _ _ _ w) as [w1|e w1] eqn:Hw1; [|done].
  apply write_file_done in Hw1 as (Hf1 & _ & _).
  unfold FixAllPages.copy_style.
  assert (read_file (FixAllPages.demo_style base_dir) w1 = Some style) as ->.
  { unfold read_file in *. by rewrite Hf1, lookup_insert_ne. }
  rewrite Hk.
  destruct (write_file _ _ _ w1) as [w2|e w2] eqn:Hw2; [|done].
  apply write_file_done in Hw2 as (Hf2 & _ & _).
  apply IH; [| |done]; unfold read_file in *;
    rewrite Hf2, lookup_insert_ne, Hf1, lookup_insert_ne; done.
Qed.

(** The paths of [fix_all_pages.py] below [base_dir]. *)
Section FixAllPagesPaths.
Variable base_dir : string.

Lemma fix_demo_script :
  FixAllPages.demo_script base_dir = base_prefix base_dir +:+ "edge-tests-demo/script.js".
Proof. unfold FixAllPages.demo_script. by rewrite path_join_two. Qed.

Lemma fix_demo_style :
  FixAllPages.demo_style base_dir = base_prefix base_dir +:+ "edge-tests-demo/style.css".
Proof. unfold FixAllPages.demo_style. by rewrite path_join_two. Qed.

Lemma fix_target_dir (k : string) :
  FixAllPages.target_dir base_dir k = base_prefix base_dir +:+ "edge-tests-" +:+ k.
Proof. unfold FixAllPages.target_dir. by rewrite path_join_relative. Qed.

Lemma fix_target_script (k : string) :
  ends_with_sep ("edge-tests-" +:+ k) = false →
  FixAllPages.target_script base_dir k
  = base_prefix base_dir +:+ ("edge-tests-" +:+ k) +:+ "/script.js".
Proof.
  intros Hk. unfold FixAllPages.target_script, FixAllPages.target_dir.
  by rewrite path_join_two.
Qed.

Lemma fix_target_style (k : string) :
  ends_with_sep ("edge-tests-" +:+ k) = false →
  FixAllPages.target_style base_dir k
  = base_prefix base_dir +:+ ("edge-tests-" +:+ k) +:+ "/style.css".
Proof.
  intros Hk. unfold FixAllPages.target_style, FixAllPages.target_dir.
  by rewrite path_join_two.
Qed.

Lemma base_prefix_neq (a b : string) :
  a ≠ b → base_prefix base_dir +:+ a ≠ base_prefix base_dir +:+ b.
Proof. intros Hab H. by apply (inj (String.app _)) in H. Qed.
End FixAllPagesPaths.

Lemma fix_all_pages_table_paths (base_dir : string) :
  Forall (fun kc =>
    dict_get FixAllPages.CLASSES (fst kc) = Some (snd kc)
    ∧ FixAllPages.target_script base_dir (fst kc) ≠ FixAllPages.demo_script base_dir
    ∧ FixAllPages.target_script base_dir (fst kc) ≠ FixAllPages.demo_style base_dir
    ∧ FixAllPages.target_style base_dir (fst kc) ≠ FixAllPages.demo_script base_dir
    ∧ FixAllPages.target_style base_dir (fst kc) ≠ FixAllPages.demo_style base_dir)
    FixAllPages.CLASSES.
Proof.
  unfold FixAllPages.CLASSES.
  repeat (apply Forall_cons; split); try (by apply Forall_nil); cbn [fst snd].
  all: split; [reflexivity|].
  all: rewrite fix_target_script, fix_target_style, fix_demo_script, fix_demo_style
      by reflexivity.
  all: repeat split; apply base_prefix_neq; by vm_compute.
Qed.

Lemma fix_all_pages_run (base_dir : string) (script style : text) (w : world) :
  read_file (FixAllPages.demo_script base_dir) w = Some script →
  read_file (FixAllPages.demo_style base_dir) w = Some style →
  FixAllPages.main base_dir w
  = run_jobs (FixAllPages.jobs base_dir FixAllPages.CLASSES script style) w.
Proof.
  intros. apply fix_all_pages_jobs; [done..|]. apply fix_all_pages_table_paths.
Qed.

(** The paths written by a run, relative to [base_dir]. *)
Lemma fix_all_pages_job_paths (base_dir : string) (script style : text) :
  map (fun j => snd (fst j)) (FixAllPages.jobs base_dir FixAllPages.CLASSES script style)
  = map (String.append (base_prefix base_dir))
      (flat_map (fun kc => ["edge-tests-" +:+ fst kc +:+ "/script.js";
                            "edge-tests-" +:+ fst kc +:+ "/style.css"])
         FixAllPages.CLASSES).
Proof.
  unfold FixAllPages.CLASSES, FixAllPages.jobs. cbn [flat_map map app fst snd].
  rewrite !fix_target_script, !fix_target_style by reflexivity.
  rewrite !string_app_assoc. reflexivity.
Qed.

Lemma full_world_script :
  read_file (FixAllPages.demo_script pages_root) full_world = Some demo_scenario.
Proof.
  unfold read_file, full_world; cbn [files].
  rewrite lookup_insert_eq. done.
Qed.

Lemma full_world_style :
  read_file (FixAllPages.demo_style pages_root) full_world = Some demo_style_text.
Proof.
  unfold read_file, full_world; cbn [files].
  rewrite lookup_insert_ne.
  - apply lookup_singleton_eq.
  - rewrite fix_demo_script, fix_demo_style. apply base_prefix_neq. by vm_compute.
Qed.

Lemma full_world_dirs (k : string) :
  k ∈ listed_keys → FixAllPages.target_dir pages_root k ∈ dirs full_world.
Proof.
  intros Hk. unfold full_world; cbn [dirs].
  apply elem_of_list_to_set, list_elem_of_fmap. eauto.
Qed.

(** The paths a run of [fix_all_pages.py] writes, relative to [base_dir]. *)
Lemma fix_all_pages_run_done (base_dir : string) (script style : text) (w : world) :
  read_file (FixAllPages.demo_script base_dir) w = Some script →
  read_file (FixAllPages.demo_style base_dir) w = Some style →
  (∀ k, k ∈ map fst FixAllPages.CLASSES → FixAllPages.target_dir base_dir k ∈ dirs w) →
  FixAllPages.main base_dir w
  = Done {| files := write_all (FixAllPages.jobs base_dir FixAllPages.CLASSES script style)
                       (files w);
            dirs := dirs w;
            written := written w ++ map (String.append (base_prefix base_dir))
              (flat_map (fun kc => ["edge-tests-" +:+ fst kc +:+ "/script.js";
                                    "edge-tests-" +:+ fst kc +:+ "/style.css"])
                 FixAllPages.CLASSES) |}.
Proof.
  intros Hscript Hstyle Hdirs.
  rewrite (fix_all_pages_run _ _ _ _ Hscript Hstyle), run_jobs_done.
  - by rewrite fix_all_pages_job_paths.
  - revert Hdirs. unfold FixAllPages.CLASSES, FixAllPages.jobs.
    cbn [flat_map app fst snd map]. intros Hdirs.
    repeat (apply Forall_cons; split); try (by apply Forall_nil);
      cbn [fst snd]; apply Hdirs; rewrite !elem_of_cons; tauto.
Qed.

Lemma run_jobs_inv (js : list (string * string * text)) (w w1 : world) :
  run_jobs js w = Done w1 → Forall (fun j => fst (fst j) ∈ dirs w) js.
Proof.
  unfold run_jobs. revert w.
  induction js as [|[[d p] c] js IH]; intros w; cbn [for_each fst snd]; [done|].
  destruct (write_file d p c w) as [w'|e w'] eqn:Hw; [|done].
  intros Hrun. assert (d ∈ dirs w) as Hd.
  { revert Hw. unfold write_file. by case_decide. }
  apply write_file_done in Hw as (_ & Hdirs & _).
  apply Forall_cons. split; [done|]. rewrite <- Hdirs. by apply IH.
Qed.

Lemma write_all_lookup_in (js : list (string * string * text))
    (m1 m2 : gmap string text) (p : string) :
  p ∈ map (fun j => snd (fst j)) js → write_all js m1 !! p = write_all js m2 !! p.
Proof.
  revert m1 m2. induction js as [|[[d q] c] js IH]; intros m1 m2; cbn [map fst snd].
  - by intros ?%elem_of_nil.
  - intros Hp. unfold write_all. cbn [foldl fst snd]. fold (write_all js (<[q:=c]> m1)).
    fold (write_all js (<[q:=c]> m2)).
    destruct (decide (p ∈ map (fun j => snd (fst j)) js)) as [Hin|Hnotin].
    + by apply IH.
    + rewrite !write_all_lookup_notin by done.
      apply elem_of_cons in Hp as [->|Hp]; [|done]. by rewrite !lookup_insert_eq.
Qed.

Lemma customize_scripts_run (content : text) (w : world) :
  read_file CustomizeScripts.demo_path w = Some content →
  CustomizeScripts.main w
  = run_jobs (CustomizeScripts.jobs CustomizeScripts.CLASSES content) w.
Proof.
  intros Hread. apply customize_scripts_jobs; [done|].
  unfold CustomizeScripts.CLASSES.
  repeat (apply Forall_cons; split); try (by apply Forall_nil); by vm_compute.
Qed.

Lemma customize_scripts_raises (w : world) :
  read_file CustomizeScripts.demo_path w = None →
  CustomizeScripts.main w = Raised (FileNotFoundError CustomizeScripts.demo_path) w.
Proof.
  intros Hread. unfold CustomizeScripts.main, CustomizeScripts.CLASSES. cbn [for_each].
  unfold CustomizeScripts.customize_script. by rewrite Hread.
Qed.

Lemma customize_scripts_demo_not_written (content : text) :
  CustomizeScripts.demo_path
  ∉ map (fun j => snd (fst j)) (CustomizeScripts.jobs CustomizeScripts.CLASSES content).
Proof.
  unfold CustomizeScripts.jobs. rewrite map_map. cbn [fst snd].
  unfold CustomizeScripts.CLASSES. cbn [map fst].
  rewrite !elem_of_cons, elem_of_nil. vm_compute.
  intros H; repeat (destruct H as [H|H]; [discriminate|]); exact H.
Qed.

(** A successful run: the demo script was read, and the result is the list
    of writes applied to the files. *)
Lemma customize_scripts_done (w w1 : world) :
  CustomizeScripts.main w = Done w1 →
  ∃ content,
    read_file CustomizeScripts.demo_path w = Some content
    ∧ Forall (fun j => fst (fst j) ∈ dirs w)
        (CustomizeScripts.jobs CustomizeScripts.CLASSES content)
    ∧ files w1 = write_all (CustomizeScripts.jobs CustomizeScripts.CLASSES content) (files w)
    ∧ dirs w1 = dirs w.
Proof.
  intros Hrun. destruct (read_file CustomizeScripts.demo_path w) as [content|] eqn:Hread.
  - exists content. split; [done|]. rewrite (customize_scripts_run _ _ Hread) in Hrun.
    pose proof (run_jobs_inv _ _ _ Hrun) as Hdirs. split; [done|].
    rewrite (run_jobs_done _ _ Hdirs) in Hrun.
    apply (f_equal world_of) in Hrun. cbn [world_of] in Hrun. by subst w1.
  - by rewrite customize_scripts_raises in Hrun.
Qed.


Lemma scripts_world_run : ∃ w1, CustomizeScripts.main scripts_world = Done w1.
Proof.
  assert (read_file CustomizeScripts.demo_path scripts_world = Some demo_scenario) as Hread.
  { unfold read_file, scripts_world; cbn [files]. apply lookup_singleton_eq. }
  rewrite (customize_scripts_run _ _ Hread), run_jobs_done; [eauto|].
  unfold CustomizeScripts.CLASSES, CustomizeScripts.jobs. cbn [map fst snd].
  repeat (apply Forall_cons; split); try (by apply Forall_nil); cbn [fst snd];
    unfold scripts_world; cbn [dirs]; apply elem_of_list_to_set, list_elem_of_fmap;
    eexists; (split; [reflexivity|]); unfold listed_keys; rewrite !elem_of_cons; tauto.
Qed.

(** * The scenarios and properties of the specification *)

(** ** The cart scenario *)

(** Claim C1.  With the table entry of [cart] (name [Cart], id field
    [cartId]) and a demo [script.js] whose content is
    [const title = "Demo Class"; const endpoint = "/demo"; inputValues.userId;],
    [customize_script] succeeds when the directory of the cart page exists,
    and the file it writes at [page/developer/edge-tests-cart/script.js] is
    [const title = "Cart Class"; const endpoint = "/cart"; inputValues.cartId;]
    (so it contains that text); no other file changes. *)
Theorem C1_cart_scenario (w : world) (cfg : CustomizeScripts.config) :
  dict_get CustomizeScripts.CLASSES "cart" = Some cfg →
  read_file CustomizeScripts.demo_path w = Some demo_scenario →
  "page/developer/edge-tests-cart" ∈ dirs w →
  ∃ w' out,
    CustomizeScripts.customize_script "cart" cfg w = Done w'
    ∧ read_file "page/developer/edge-tests-cart/script.js" w' = Some out
    ∧ out = cart_scenario
    ∧ contains cart_scenario out = true
    ∧ (∀ p, p ≠ "page/developer/edge-tests-cart/script.js" →
            read_file p w' = read_file p w).
Proof.
  intros [= <-] Hread Hdir.
  unfold CustomizeScripts.customize_script. rewrite Hread.
  unfold write_file. change (CustomizeScripts.target_dir "cart")
    with "page/developer/edge-tests-cart".
  rewrite decide_True by done.
  eexists; exists cart_scenario; split; [reflexivity|].
  unfold read_file; cbn [files].
  change (CustomizeScripts.target_path "cart")
    with "page/developer/edge-tests-cart/script.js".
  split; [|split; [|split]].
  - rewrite lookup_insert_eq. apply (f_equal Some). vm_compute. reflexivity.
  - reflexivity.
  - vm_compute. reflexivity.
  - intros p Hp. by rewrite lookup_insert_ne.
Qed.

Lemma C1_cart_scenario_witness :
  ∃ w',
    CustomizeScripts.customize_script "cart"
      (CustomizeScripts.Config "Cart" "cart" "/cart" "cartId") scenario_world = Done w'
    ∧ read_file "page/developer/edge-tests-cart/script.js" w' = Some cart_scenario.
Proof.
  destruct (C1_cart_scenario scenario_world
              (CustomizeScripts.Config "Cart" "cart" "/cart" "cartId"))
    as (w' & out & H1 & H2 & -> & _).
  - reflexivity.
  - unfold read_file, scenario_world; cbn [files]. apply lookup_singleton_eq.
  - unfold scenario_world; cbn [dirs]. apply elem_of_singleton. reflexivity.
  - exists w'. split; assumption.
Defined.

(** ** Order of the rules of [customize_scripts.py] *)

(** Claim C4.  In [customize_scripts.py] the bare rules [demo] and [Demo] are
    the third and fourth of the seven rules, before [/demo], [EdgeTestsDemo]
    and [[Edge Tests Demo]], and not last.  For the entry [gateway-1] (name
    [Gateway 1]) the text [new EdgeTestsDemo()] therefore becomes
    [new EdgeTestsGateway 1()], with the space of the name kept: the rule
    that would write [EdgeTestsGateway1] finds nothing left to match. *)
Theorem C4_edge_tests_demo_keeps_space :
  let cfg := CustomizeScripts.Config "Gateway 1" "gateway-1" "/gateway-1" "gatewayId" in
  dict_get CustomizeScripts.CLASSES "gateway-1" = Some cfg
  ∧ map fst (CustomizeScripts.replacements cfg)
    = [lit "Demo Class"; lit "demo functionality"; lit "demo"; lit "Demo";
       lit "/demo"; lit "EdgeTestsDemo"; lit "[Edge Tests Demo]"]
  ∧ CustomizeScripts.replacements cfg !! 5
    = Some (lit "EdgeTestsDemo", lit "EdgeTestsGateway1")
  ∧ CustomizeScripts.customize_text cfg (lit "new EdgeTestsDemo()")
    = lit "new EdgeTestsGateway 1()"
  ∧ contains (lit "EdgeTestsGateway1")
      (CustomizeScripts.customize_text cfg (lit "new EdgeTestsDemo()")) = false.
Proof. vm_compute. repeat split; reflexivity. Qed.

(** ** Files produced by a run *)

(** Claim C3, counterexample.  The table of [fix_all_pages.py], the one script
    that writes both files, has no entry [cart]: on a file system that holds
    the demo files and the directory of every listed page, the run succeeds
    and writes nothing for [cart]. *)
Lemma C3_cart_not_produced :
  is_done (FixAllPages.main pages_root full_world) = true
  ∧ ¬ produces_page_files pages_root full_world "cart".
Proof.
  assert (∀ k, k ∈ map fst FixAllPages.CLASSES →
               FixAllPages.target_dir pages_root k ∈ dirs full_world) as Hdirs.
  { intros k Hk. apply full_world_dirs. revert Hk.
    unfold FixAllPages.CLASSES, listed_keys. cbn [map fst].
    rewrite !elem_of_cons, !elem_of_nil. tauto. }
  pose proof (fix_all_pages_run_done _ _ _ _ full_world_script full_world_style Hdirs)
    as Hrun.
  split; [by rewrite Hrun|].
  intros (w' & Hw' & Hs & _). rewrite Hrun in Hw'.
  apply (f_equal (fun o => written (world_of o))) in Hw'.
  cbn [world_of written] in Hw'. rewrite <- Hw' in Hs. clear Hw' Hrun.
  revert Hs. unfold full_world at 1. cbn [written app].
  rewrite fix_target_script by done.
  intros (r & Hr%(inj (String.app _)) & Hin)%list_elem_of_fmap.
  subst r. revert Hin. unfold FixAllPages.CLASSES. cbn [flat_map app fst].
  rewrite !elem_of_cons, elem_of_nil. vm_compute.
  intros H; repeat (destruct H as [H|H]; [discriminate|]); exact H.
Qed.

(** Claim C3, as amended.  The table of [fix_all_pages.py] has the nine keys
    [wishlist], [coupon], [subscriptions], [transactions], [gateway-1],
    [gateway-2], [media], [products] and [orders].  When both demo files can
    be read and the directory of each of these pages exists, one run succeeds
    and writes, for each of the nine keys in table order, the two files
    [edge-tests-<key>/script.js] and [edge-tests-<key>/style.css], each once,
    and no other file; in particular nothing for [cart]. *)
Theorem C3_fix_all_pages_outputs (base_dir : string) (script style : text) (w : world) :
  read_file (FixAllPages.demo_script base_dir) w = Some script →
  read_file (FixAllPages.demo_style base_dir) w = Some style →
  (∀ k, k ∈ map fst FixAllPages.CLASSES → FixAllPages.target_dir base_dir k ∈ dirs w) →
  let outputs :=
    flat_map (fun k => [FixAllPages.target_script base_dir k;
                        FixAllPages.target_style base_dir k])
      (map fst FixAllPages.CLASSES) in
  map fst FixAllPages.CLASSES
  = ["wishlist"; "coupon"; "subscriptions"; "transactions";
     "gateway-1"; "gateway-2"; "media"; "products"; "orders"]
  ∧ ∃ w', FixAllPages.main base_dir w = Done w'
          ∧ written w' = written w ++ outputs
          ∧ NoDup outputs
          ∧ FixAllPages.target_script base_dir "cart" ∉ outputs
          ∧ FixAllPages.target_style base_dir "cart" ∉ outputs.
Proof.
  intros Hscript Hstyle Hdirs outputs. split; [reflexivity|].
  rewrite (fix_all_pages_run_done _ _ _ _ Hscript Hstyle Hdirs).
  eexists; split; [reflexivity|]. cbn [written].
  assert (outputs = map (String.append (base_prefix base_dir))
            (flat_map (fun kc => ["edge-tests-" +:+ fst kc +:+ "/script.js";
                                  "edge-tests-" +:+ fst kc +:+ "/style.css"])
               FixAllPages.CLASSES)) as ->.
  { unfold outputs, FixAllPages.CLASSES. cbn [flat_map map app fst snd].
    rewrite !fix_target_script, !fix_target_style by reflexivity.
    rewrite !string_app_assoc. reflexivity. }
  split; [reflexivity|]. split; [|split].
  - apply (NoDup_fmap_2 _). apply (bool_decide_unpack _). by vm_compute.
  - rewrite fix_target_script by done.
    intros (r & Hr%(inj (String.app _)) & Hin)%list_elem_of_fmap.
    subst r. revert Hin. unfold FixAllPages.CLASSES. cbn [flat_map app fst].
    rewrite !elem_of_cons, elem_of_nil. vm_compute.
    intros H; repeat (destruct H as [H|H]; [discriminate|]); exact H.
  - rewrite fix_target_style by done.
    intros (r & Hr%(inj (String.app _)) & Hin)%list_elem_of_fmap.
    subst r. revert Hin. unfold FixAllPages.CLASSES. cbn [flat_map app fst].
    rewrite !elem_of_cons, elem_of_nil. vm_compute.
    intros H; repeat (destruct H as [H|H]; [discriminate|]); exact H.
Qed.

Lemma C3_fix_all_pages_outputs_witness :
  ∃ w', FixAllPages.main pages_root full_world = Done w'
        ∧ length (written w') = 18.
Proof.
  destruct (C3_fix_all_pages_outputs pages_root demo_scenario demo_style_text full_world)
    as (_ & w' & Hrun & Hw & _).
  - apply full_world_script.
  - apply full_world_style.
  - intros k Hk. apply full_world_dirs. revert Hk.
    unfold FixAllPages.CLASSES, listed_keys. cbn [map fst].
    rewrite !elem_of_cons, !elem_of_nil. tauto.
  - exists w'. split; [assumption|]. rewrite Hw. reflexivity.
Defined.

(** ** The stylesheet *)



(** ** A missing demo file *)




(** ** Running twice *)

(** Claim C9.  The files [customize_scripts.py] writes are a function of the
    content of the demo script and of the static table alone.  After a
    successful run, a second run on the resulting file system succeeds and
    leaves every file with the same content; and any two successful runs
    that read the same demo content, whatever else their file systems hold,
    write the same content to the script of every entry of the table. *)
Theorem C9_rerun_identical (w w1 : world) :
  CustomizeScripts.main w = Done w1 →
  (∃ w2, CustomizeScripts.main w1 = Done w2 ∧ files w2 = files w1 ∧ dirs w2 = dirs w1)
  ∧ (∀ w' w1',
       CustomizeScripts.main w' = Done w1' →
       read_file CustomizeScripts.demo_path w' = read_file CustomizeScripts.demo_path w →
       ∀ k, k ∈ map fst CustomizeScripts.CLASSES →
         read_file (CustomizeScripts.target_path k) w1'
         = read_file (CustomizeScripts.target_path k) w1).
Proof.
  intros Hrun.
  destruct (customize_scripts_done _ _ Hrun) as (content & Hread & Hdirs & Hfiles & Hd).
  split.
  - assert (read_file CustomizeScripts.demo_path w1 = Some content) as Hread1.
    { unfold read_file in *. rewrite Hfiles, write_all_lookup_notin; [done|].
      apply customize_scripts_demo_not_written. }
    rewrite (customize_scripts_run _ _ Hread1), run_jobs_done by (by rewrite Hd).
    eexists. split; [reflexivity|]. cbn [files dirs]. split; [|done].
    by rewrite Hfiles, write_all_twice.
  - intros w' w1' Hrun' Hsame k Hk.
    destruct (customize_scripts_done _ _ Hrun') as (content' & Hread' & _ & Hfiles' & _).
    assert (content' = content) as -> by congruence.
    unfold read_file. rewrite Hfiles, Hfiles'. apply write_all_lookup_in.
    unfold CustomizeScripts.jobs. rewrite map_map. cbn [fst snd].
    rewrite <- (map_map fst CustomizeScripts.target_path).
    by apply list_elem_of_fmap_2.
Qed.

Lemma C9_rerun_identical_witness :
  ∃ w1 w2,
    CustomizeScripts.main scripts_world = Done w1
    ∧ CustomizeScripts.main w1 = Done w2
    ∧ files w2 = files w1.
Proof.
  destruct scripts_world_run as [w1 H1].
  destruct (C9_rerun_identical scripts_world w1 H1) as [(w2 & H2 & H3 & _) _].
  exists w1, w2. split; [assumption|]. split; assumption.
Defined.

(** * Further properties of the scripts *)

(** ** What the rules leave and what they never touch *)

Lemma apply_replacements_app (rs1 rs2 : list (text * text)) (s : text) :
  apply_replacements (rs1 ++ rs2) s = apply_replacements rs2 (apply_replacements rs1 s).
Proof. unfold apply_replacements. by rewrite fold_left_app. Qed.

Lemma scripts_rules_text (cfg : CustomizeScripts.config) (s : text) :
  CustomizeScripts.id_field cfg ≠ default_id_field →
  CustomizeScripts.customize_text cfg s = apply_replacements (scripts_rules cfg) s.
Proof.
  intros Hid. unfold CustomizeScripts.customize_text, CustomizeScripts.id_field_step.
  rewrite decide_False by done. unfold scripts_rules. by rewrite apply_replacements_app.
Qed.

Lemma pages_rules_text (k : string) (cfg : FixAllPages.config) (s : text) :
  FixAllPages.id_field cfg ≠ default_id_field →
  FixAllPages.customize_text k cfg s = apply_replacements (pages_rules k cfg) s.
Proof.
  intros Hid. unfold FixAllPages.customize_text, FixAllPages.id_field_step.
  rewrite decide_False by done. unfold pages_rules. by rewrite apply_replacements_app.
Qed.

(** Every entry of a table, one after the other. *)
Ltac each_entry :=
  repeat (apply Forall_cons; split); try (by apply Forall_nil); cbn [fst snd].

(** Property X1.  For every entry of the table of [customize_scripts.py] and
    every demo text, the customized text holds no occurrence of [Demo] in
    that exact case. *)
Theorem scripts_no_Demo_left :
  Forall (fun kc => ∀ s,
    contains (lit "Demo") (CustomizeScripts.customize_text (snd kc) s) = false)
    CustomizeScripts.CLASSES.
Proof.
  unfold CustomizeScripts.CLASSES. each_entry.
  all: intros s; rewrite scripts_rules_text by done.
  all: apply (absent_after_sound _ _ false); [by vm_compute|done].
Qed.

(** Property X2.  For every entry of the table of [customize_scripts.py] and
    every demo text, the customized text holds neither [inputValues.userId]
    nor [{userId}]. *)
Theorem scripts_no_placeholder_left :
  Forall (fun kc => ∀ s,
    contains (lit "inputValues.userId") (CustomizeScripts.customize_text (snd kc) s) = false
    ∧ contains (lit "{userId}") (CustomizeScripts.customize_text (snd kc) s) = false)
    CustomizeScripts.CLASSES.
Proof.
  unfold CustomizeScripts.CLASSES. each_entry.
  all: intros s; rewrite scripts_rules_text by done; split.
  all: apply (absent_after_sound _ _ false); [by vm_compute|done].
Qed.

(** Property X3.  For every entry of the table of [fix_all_pages.py] and
    every demo text, the customized script holds neither
    [inputValues.userId] nor [{userId}]. *)
Theorem pages_no_placeholder_left :
  Forall (fun kc => ∀ s,
    contains (lit "inputValues.userId")
      (FixAllPages.customize_text (fst kc) (snd kc) s) = false
    ∧ contains (lit "{userId}")
        (FixAllPages.customize_text (fst kc) (snd kc) s) = false)
    FixAllPages.CLASSES.
Proof.
  unfold FixAllPages.CLASSES. each_entry.
  all: intros s; rewrite pages_rules_text by done; split.
  all: apply (absent_after_sound _ _ false); [by vm_compute|done].
Qed.

(** Property X4.  For every entry of the table of [fix_all_pages.py] and
    every demo stylesheet, the text [copy_style] writes holds no occurrence
    of [Demo Class (Template)]. *)
Theorem style_no_template_left :
  Forall (fun kc => ∀ s,
    contains (lit "Demo Class (Template)") (FixAllPages.style_text (snd kc) s) = false)
    FixAllPages.CLASSES.
Proof.
  unfold FixAllPages.CLASSES. each_entry.
  all: intros s; apply replace_kills; [done|by vm_compute].
Qed.

Lemma contains_trans (p q s : text) :
  contains p q = true → contains q s = true → contains p s = true.
Proof.
  intros (l & r & ->)%contains_spec (l' & r' & ->)%contains_spec.
  apply contains_spec. exists (l' ++ l), (r ++ r'). by rewrite <- !app_assoc.
Qed.

Lemma replace_absent (old new s : text) :
  old ≠ [] → contains old s = false → replace old new s = s.
Proof. intros Ho Hs. rewrite replace_nonempty by done. by apply replace_go_absent. Qed.

(** Rules whose patterns do not occur change nothing. *)
Lemma apply_replacements_absent (rs : list (text * text)) (s : text) :
  Forall (fun r => fst r ≠ [] ∧ contains (fst r) s = false) rs →
  apply_replacements rs s = s.
Proof.
  induction rs as [|[old new] rs IH]; [done|].
  intros [[Ho Hs] Hrs]%Forall_cons. cbn [fst] in *.
  rewrite apply_replacements_cons, replace_absent by done. by apply IH.
Qed.

Lemma absent_sub (p old s : text) :
  contains p old = true → contains p s = false → contains old s = false.
Proof.
  intros Hp Hs. destruct (contains old s) eqn:E; [|done].
  by rewrite (contains_trans _ _ _ Hp E) in Hs.
Qed.

Lemma replace_go_same (old s : text) (k : nat) :
  old ≠ [] → replace_go old old k s = drop k s.
Proof.
  intros Ho. revert k. induction s as [|c s IH]; intros [|k]; cbn [replace_go drop]; auto.
  destruct (startswith old (c :: s)) eqn:E; [|by rewrite IH].
  rewrite IH. apply startswith_prefix_of in E as [r Hr].
  destruct old as [|o old']; [done|]. injection Hr as -> ->.
  cbn [length Nat.sub]. rewrite ?Nat.sub_0_r. by rewrite drop_app_length.
Qed.

(** Replacing a text by itself changes nothing. *)
Lemma replace_same (old s : text) : old ≠ [] → replace old old s = s.
Proof. intros Ho. by rewrite replace_nonempty, replace_go_same. Qed.

(** Property X5.  For every entry of the table and every demo text, the
    rules [EdgeTestsDemo] and [[Edge Tests Demo]] of [customize_scripts.py]
    never change anything: the result is that of the first five rules and
    the guarded step.  For every entry but [orders] the rule [/demo] never
    changes anything either. *)
Theorem scripts_last_rules_dead :
  Forall (fun kc => ∀ s,
    CustomizeScripts.customize_text (snd kc) s
    = CustomizeScripts.id_field_step (snd kc)
        (apply_replacements (take 5 (CustomizeScripts.replacements (snd kc))) s)
    ∧ (fst kc ≠ "orders" →
       CustomizeScripts.customize_text (snd kc) s
       = CustomizeScripts.id_field_step (snd kc)
           (apply_replacements (take 4 (CustomizeScripts.replacements (snd kc))) s)))
    CustomizeScripts.CLASSES.
Proof.
  unfold CustomizeScripts.CLASSES. each_entry.
  all: intros s; unfold CustomizeScripts.customize_text; split; [|intros Hk].
  all: try done.
  all: f_equal.
  all: match goal with
       | |- apply_replacements ?rs _ = apply_replacements (take ?n ?rs) _ =>
           rewrite <- (take_drop n rs) at 1; rewrite apply_replacements_app;
           apply apply_replacements_absent; cbn [take drop CustomizeScripts.replacements]
       end.
  all: each_entry.
  all: (split; [done|]).
  all: first
    [ apply (absent_sub (lit "Demo")); [by vm_compute|];
      apply (absent_after_sound _ _ false); [by vm_compute|done]
    | apply (absent_sub (lit "demo")); [by vm_compute|];
      apply (absent_after_sound _ _ false); [by vm_compute|done] ].
Qed.



(** Property X7.  For a configuration whose [id_field] is [userId],
    [fix_all_pages.py] rewrites a text as its first eleven rules do: the
    rule [{userId}] and the guarded step change nothing. *)
Theorem pages_default_id_field (k : string) (cfg : FixAllPages.config) (s : text) :
  FixAllPages.id_field cfg = default_id_field →
  FixAllPages.customize_text k cfg s
  = apply_replacements (take 11 (FixAllPages.replacements k cfg)) s.
Proof.
  intros Hid. unfold FixAllPages.customize_text, FixAllPages.id_field_step.
  rewrite decide_True by done.
  rewrite <- (take_drop 11 (FixAllPages.replacements k cfg)) at 1.
  rewrite apply_replacements_app. cbn [drop FixAllPages.replacements].
  rewrite Hid. cbn [apply_replacements fold_left fst snd].
  by apply replace_same.
Qed.

Lemma pages_default_id_field_witness :
  FixAllPages.customize_text "users" (FixAllPages.Config "Users" "User" "users" "userId")
    (lit "GET /demo/{userId} for inputValues.userId")
  = lit "GET /users/{userId} for inputValues.userId".
Proof.
  rewrite (pages_default_id_field "users"
             (FixAllPages.Config "Users" "User" "users" "userId")) by reflexivity.
  vm_compute. reflexivity.
Defined.

(** ** Occurrences rewritten wherever they stand *)

(** Property X8.  In [customize_scripts.py], for every entry of the table, an
    occurrence of [/demo] that is not followed by [ functionality] becomes
    [/<key>], whatever stands around it, and the text before and after it
    is rewritten as if it stood alone. *)
Theorem scripts_endpoint_rewritten :
  Forall (fun kc => ∀ pre post,
    startswith (lit " functionality") post = false →
    CustomizeScripts.customize_text (snd kc) (pre ++ lit "/demo" ++ post)
    = CustomizeScripts.customize_text (snd kc) pre ++ (lit "/" ++ lit (fst kc))
      ++ CustomizeScripts.customize_text (snd kc) post)
    CustomizeScripts.CLASSES.
Proof.
  unfold CustomizeScripts.CLASSES. each_entry.
  all: intros pre post Hpost; rewrite !scripts_rules_text by done.
  all: rewrite (isolated_sound _ (lit "/demo") [] [lit " functionality"] []);
    [ f_equal; f_equal; by vm_compute
    | by vm_compute
    | by apply Forall_nil
    | by apply Forall_cons
    | by apply Forall_nil
    | by apply Forall_nil ].
Qed.

Lemma scripts_endpoint_rewritten_witness :
  CustomizeScripts.customize_text (CustomizeScripts.Config "Orders" "orders" "/orders" "orderId")
    (lit "fetch('" ++ lit "/demo" ++ lit "/list')")
  = lit "fetch('/orders/list')".
Proof.
  pose proof scripts_endpoint_rewritten as H.
  rewrite Forall_forall in H.
  rewrite (H ("orders", CustomizeScripts.Config "Orders" "orders" "/orders" "orderId")).
  - vm_compute. reflexivity.
  - unfold CustomizeScripts.CLASSES. rewrite !elem_of_cons. tauto.
  - reflexivity.
Defined.

(** Property X9.  In [customize_all.py], for every entry of the table, an
    occurrence of [Demo Items] not preceded by [EdgeTests] becomes the
    title-cased [items] label, and an occurrence of [demo items] not
    preceded by [/] becomes the [items] label, whatever stands around
    them. *)
Theorem all_items_rewritten :
  Forall (fun kc => ∀ pre post,
    (¬ lit "EdgeTests" `suffix_of` pre →
     CustomizeAll.customize_text (fst kc) (snd kc) (pre ++ lit "Demo Items" ++ post)
     = CustomizeAll.customize_text (fst kc) (snd kc) pre
       ++ title (lit (CustomizeAll.items (snd kc)))
       ++ CustomizeAll.customize_text (fst kc) (snd kc) post)
    ∧ (¬ lit "/" `suffix_of` pre →
       CustomizeAll.customize_text (fst kc) (snd kc) (pre ++ lit "demo items" ++ post)
       = CustomizeAll.customize_text (fst kc) (snd kc) pre
         ++ lit (CustomizeAll.items (snd kc))
         ++ CustomizeAll.customize_text (fst kc) (snd kc) post))
    CustomizeAll.CLASSES.
Proof.
  unfold CustomizeAll.CLASSES. each_entry.
  all: intros pre post; unfold CustomizeAll.customize_text; split; intros Hpre.
  all: first [ rewrite (isolated_sound _ (lit "Demo Items") [lit "EdgeTests"] [] [])
             | rewrite (isolated_sound _ (lit "demo items") [lit "/"] [] []) ].
  all: first [ by vm_compute | by apply Forall_cons | by apply Forall_nil
             | f_equal; f_equal; by vm_compute ].
Qed.

Lemma all_items_rewritten_witness :
  CustomizeAll.customize_text "coupon" (CustomizeAll.Config "Coupon" "Coupon" "coupons")
    (lit "<h2>All " ++ lit "Demo Items" ++ lit "</h2>")
  = lit "<h2>All Coupons</h2>".
Proof.
  pose proof all_items_rewritten as H. rewrite Forall_forall in H.
  destruct (H ("coupon", CustomizeAll.Config "Coupon" "Coupon" "coupons")) with
    (pre := lit "<h2>All ") (post := lit "</h2>") as [H1 _].
  - unfold CustomizeAll.CLASSES. rewrite !elem_of_cons. tauto.
  - cbn [fst snd] in H1. rewrite H1.
    + vm_compute. reflexivity.
    + intros [k Hk]. apply (f_equal (@rev ascii)) in Hk.
      rewrite rev_app_distr in Hk. vm_compute in Hk. discriminate.
Defined.

(** Property X10.  In [fix_all_pages.py], for every entry of the table, an
    occurrence of [Demo Items] not preceded by [EdgeTests] becomes the
    title-cased [items] label, and an occurrence of [demo items] not
    preceded by [/] becomes the [items] label, whatever stands around them,
    the guarded step included. *)
Theorem pages_items_rewritten :
  Forall (fun kc => ∀ pre post,
    (¬ lit "EdgeTests" `suffix_of` pre →
     FixAllPages.customize_text (fst kc) (snd kc) (pre ++ lit "Demo Items" ++ post)
     = FixAllPages.customize_text (fst kc) (snd kc) pre
       ++ title (lit (FixAllPages.items (snd kc)))
       ++ FixAllPages.customize_text (fst kc) (snd kc) post)
    ∧ (¬ lit "/" `suffix_of` pre →
       FixAllPages.customize_text (fst kc) (snd kc) (pre ++ lit "demo items" ++ post)
       = FixAllPages.customize_text (fst kc) (snd kc) pre
         ++ lit (FixAllPages.items (snd kc))
         ++ FixAllPages.customize_text (fst kc) (snd kc) post))
    FixAllPages.CLASSES.
Proof.
  unfold FixAllPages.CLASSES. each_entry.
  all: intros pre post; rewrite !pages_rules_text by done; split; intros Hpre.
  all: first [ rewrite (isolated_sound _ (lit "Demo Items") [lit "EdgeTests"] [] [])
             | rewrite (isolated_sound _ (lit "demo items") [lit "/"] [] []) ].
  all: first [ by vm_compute | by apply Forall_cons | by apply Forall_nil
             | f_equal; f_equal; by vm_compute ].
Qed.

Lemma pages_items_rewritten_witness :
  FixAllPages.customize_text "media"
    (FixAllPages.Config "Media" "Media Item" "media items" "mediaId")
    (lit "No " ++ lit "demo items" ++ lit " found")
  = lit "No media items found".
Proof.
  pose proof pages_items_rewritten as H. rewrite Forall_forall in H.
  destruct (H ("media", FixAllPages.Config "Media" "Media Item" "media items" "mediaId"))
    with (pre := lit "No ") (post := lit " found") as [_ H2].
  - unfold FixAllPages.CLASSES. rewrite !elem_of_cons. tauto.
  - cbn [fst snd] in H2. rewrite H2.
    + vm_compute. reflexivity.
    + intros [k Hk]. apply (f_equal (@rev ascii)) in Hk.
      rewrite rev_app_distr in Hk. vm_compute in Hk. discriminate.
Defined.

(** ** Runs, directories and paths *)

(** A list of writes stops at the first directory that is missing. *)
Lemma run_jobs_raised (js1 js2 : list (string * string * text)) (d p : string) (c : text)
    (w : world) :
  Forall (fun j => fst (fst j) ∈ dirs w) js1 →
  d ∉ dirs w →
  run_jobs (js1 ++ (d, p, c) :: js2) w
  = Raised (FileNotFoundError p)
      {| files := write_all js1 (files w);
         dirs := dirs w;
         written := written w ++ map (fun j => snd (fst j)) js1 |}.
Proof.
  unfold run_jobs, write_all. revert w.
  induction js1 as [|[[d1 p1] c1] js1 IH]; intros w Hjs Hd; cbn [app for_each foldl map fst snd].
  - unfold write_file. rewrite decide_False by done. rewrite app_nil_r. by destruct w.
  - apply Forall_cons in Hjs as [Hd1 Hjs]. cbn [fst snd] in Hd1.
    unfold write_file at 1. rewrite decide_True by done.
    rewrite IH by done. cbn [files dirs written]. by rewrite <- app_assoc.
Qed.


(** ** [customize_scripts.py]: when a run succeeds and what it leaves *)

Lemma scripts_job_paths (l : list (string * CustomizeScripts.config)) (content : text) :
  map (fun j => snd (fst j)) (CustomizeScripts.jobs l content)
  = map (fun kc => CustomizeScripts.target_path (fst kc)) l.
Proof. unfold CustomizeScripts.jobs. by rewrite map_map. Qed.

Lemma scripts_job_dirs (l : list (string * CustomizeScripts.config)) (content : text)
    (w : world) :
  Forall (fun j => fst (fst j) ∈ dirs w) (CustomizeScripts.jobs l content)
  ↔ Forall (fun kc => CustomizeScripts.target_dir (fst kc) ∈ dirs w) l.
Proof. unfold CustomizeScripts.jobs. by rewrite Forall_map. Qed.

(** Property X11.  A run of [customize_scripts.py] succeeds exactly when the
    demo script can be read and the directory of each of the ten entries
    exists. *)
Theorem scripts_run_succeeds_iff (w : world) :
  is_done (CustomizeScripts.main w) = true
  ↔ is_Some (read_file CustomizeScripts.demo_path w)
    ∧ Forall (fun kc => CustomizeScripts.target_dir (fst kc) ∈ dirs w)
        CustomizeScripts.CLASSES.
Proof.
  split.
  - destruct (CustomizeScripts.main w) as [w1|e w1] eqn:Hrun; [|done]. intros _.
    destruct (customize_scripts_done _ _ Hrun) as (content & Hread & Hdirs & _).
    split; [by rewrite Hread|]. by apply scripts_job_dirs in Hdirs.
  - intros [[content Hread] Hdirs].
    rewrite (customize_scripts_run _ _ Hread), run_jobs_done; [done|].
    by apply scripts_job_dirs.
Qed.


(** Property X13.  A run of [customize_scripts.py] stops at the first entry
    whose directory is missing, with [FileNotFoundError] for its script:
    the scripts of the entries before it have been written, nothing of the
    entries after it. *)
Theorem scripts_missing_directory (w : world) (content : text)
    (l1 l2 : list (string * CustomizeScripts.config)) (k : string)
    (cfg : CustomizeScripts.config) :
  CustomizeScripts.CLASSES = l1 ++ (k, cfg) :: l2 →
  read_file CustomizeScripts.demo_path w = Some content →
  Forall (fun kc => CustomizeScripts.target_dir (fst kc) ∈ dirs w) l1 →
  CustomizeScripts.target_dir k ∉ dirs w →
  CustomizeScripts.main w
  = Raised (FileNotFoundError (CustomizeScripts.target_path k))
      {| files := write_all (CustomizeScripts.jobs l1 content) (files w);
         dirs := dirs w;
         written := written w ++ map (fun kc => CustomizeScripts.target_path (fst kc)) l1 |}.
Proof.
  intros Hl Hread Hdirs Hk. rewrite (customize_scripts_run _ _ Hread), Hl.
  unfold CustomizeScripts.jobs at 1. rewrite map_app. cbn [map fst snd].
  fold (CustomizeScripts.jobs l1 content). fold (CustomizeScripts.jobs l2 content).
  rewrite run_jobs_raised; [by rewrite scripts_job_paths|by apply scripts_job_dirs|done].
Qed.

(** ** [fix_all_pages.py]: when a run succeeds and what it leaves *)


Lemma pages_job_dirs (base_dir : string) (l : list (string * FixAllPages.config))
    (script style : text) (w : world) :
  Forall (fun j => fst (fst j) ∈ dirs w) (FixAllPages.jobs base_dir l script style)
  ↔ Forall (fun kc => FixAllPages.target_dir base_dir (fst kc) ∈ dirs w) l.
Proof.
  induction l as [|[k cfg] l IH]; [done|].
  unfold FixAllPages.jobs. cbn [flat_map app fst snd].
  fold (FixAllPages.jobs base_dir l script style).
  rewrite !Forall_cons, IH. cbn [fst snd]. tauto.
Qed.


Lemma pages_demo_not_written (base_dir : string) (script style : text) :
  FixAllPages.demo_script base_dir
  ∉ map (fun j => snd (fst j)) (FixAllPages.jobs base_dir FixAllPages.CLASSES script style)
  ∧ FixAllPages.demo_style base_dir
    ∉ map (fun j => snd (fst j)) (FixAllPages.jobs base_dir FixAllPages.CLASSES script style).
Proof.
  rewrite fix_all_pages_job_paths, fix_demo_script, fix_demo_style. split.
  all: intros (r & Hr%(inj (String.app _)) & Hin)%list_elem_of_fmap; subst r; revert Hin.
  all: unfold FixAllPages.CLASSES; cbn [flat_map app fst].
  all: rewrite !elem_of_cons, elem_of_nil; vm_compute.
  all: intros H; repeat (destruct H as [H|H]; [discriminate|]); exact H.
Qed.

(** A successful run read both demo files and found every directory. *)
Lemma pages_done (base_dir : string) (w w1 : world) :
  FixAllPages.main base_dir w = Done w1 →
  ∃ script style,
    read_file (FixAllPages.demo_script base_dir) w = Some script
    ∧ read_file (FixAllPages.demo_style base_dir) w = Some style
    ∧ Forall (fun kc => FixAllPages.target_dir base_dir (fst kc) ∈ dirs w)
        FixAllPages.CLASSES
    ∧ files w1 = write_all (FixAllPages.jobs base_dir FixAllPages.CLASSES script style)
                   (files w)
    ∧ dirs w1 = dirs w.
Proof.
  intros Hrun.
  destruct (read_file (FixAllPages.demo_script base_dir) w) as [script|] eqn:Hscript.
  2:{ revert Hrun. unfold FixAllPages.main, FixAllPages.CLASSES. cbn [for_each].
      unfold FixAllPages.fix_page, FixAllPages.customize_script. by rewrite Hscript. }
  destruct (read_file (FixAllPages.demo_style base_dir) w) as [style|] eqn:Hstyle.
  - exists script, style. rewrite (fix_all_pages_run _ _ _ _ Hscript Hstyle) in Hrun.
    pose proof (run_jobs_inv _ _ _ Hrun) as Hdirs.
    rewrite (run_jobs_done _ _ Hdirs) in Hrun.
    apply (f_equal world_of) in Hrun. cbn [world_of] in Hrun. subst w1.
    repeat split; [by apply pages_job_dirs in Hdirs].
  - exfalso. revert Hrun. unfold FixAllPages.main, FixAllPages.CLASSES. cbn [for_each].
    unfold FixAllPages.fix_page, FixAllPages.customize_script. cbn [fst snd].
    rewrite Hscript.
    destruct (write_file _ _ _ w) as [w'|e w'] eqn:Hw; [|done].
    apply write_file_done in Hw as (Hf & _ & _).
    unfold FixAllPages.copy_style.
    assert (read_file (FixAllPages.demo_style base_dir) w' = None) as ->; [|done].
    unfold read_file in *. rewrite Hf, lookup_insert_ne; [done|].
    rewrite fix_demo_style, fix_target_script by done. apply base_prefix_neq.
    by vm_compute.
Qed.

(** Property X14.  A run of [fix_all_pages.py] succeeds exactly when both
    demo files can be read and the directory of each of the nine entries
    exists. *)
Theorem pages_run_succeeds_iff (base_dir : string) (w : world) :
  is_done (FixAllPages.main base_dir w) = true
  ↔ is_Some (read_file (FixAllPages.demo_script base_dir) w)
    ∧ is_Some (read_file (FixAllPages.demo_style base_dir) w)
    ∧ Forall (fun kc => FixAllPages.target_dir base_dir (fst kc) ∈ dirs w)
        FixAllPages.CLASSES.
Proof.
  split.
  - destruct (FixAllPages.main base_dir w) as [w1|e w1] eqn:Hrun; [|done]. intros _.
    destruct (pages_done _ _ _ Hrun) as (script & style & Hs & Ht & Hdirs & _).
    by rewrite Hs, Ht.
  - intros ([script Hs] & [style Ht] & Hdirs).
    rewrite (fix_all_pages_run _ _ _ _ Hs Ht), run_jobs_done; [done|].
    by apply pages_job_dirs.
Qed.


(** Property X16.  After a successful run of [fix_all_pages.py], a second
    run on the resulting file system succeeds and leaves every file and
    directory as the first run left it. *)
Theorem pages_rerun_identical (base_dir : string) (w w1 : world) :
  FixAllPages.main base_dir w = Done w1 →
  ∃ w2, FixAllPages.main base_dir w1 = Done w2 ∧ files w2 = files w1 ∧ dirs w2 = dirs w1.
Proof.
  intros Hrun.
  destruct (pages_done _ _ _ Hrun) as (script & style & Hs & Ht & Hdirs & Hfiles & Hd).
  destruct (pages_demo_not_written base_dir script style) as [Hn1 Hn2].
  assert (read_file (FixAllPages.demo_script base_dir) w1 = Some script) as Hs1.
  { unfold read_file in *. by rewrite Hfiles, write_all_lookup_notin. }
  assert (read_file (FixAllPages.demo_style base_dir) w1 = Some style) as Ht1.
  { unfold read_file in *. by rewrite Hfiles, write_all_lookup_notin. }
  rewrite (fix_all_pages_run _ _ _ _ Hs1 Ht1), run_jobs_done.
  - eexists. split; [reflexivity|]. cbn [files dirs]. split; [|done].
    by rewrite Hfiles, write_all_twice.
  - apply pages_job_dirs. by rewrite Hd.
Qed.

(** ** What a run never touches *)

Lemma write_file_frame (d p : string) (c : text) (w : world) :
  dirs (world_of (write_file d p c w)) = dirs w
  ∧ ∀ q, q ≠ p → files (world_of (write_file d p c w)) !! q = files w !! q.
Proof.
  unfold write_file. case_decide; cbn [world_of dirs files]; [|done].
  split; [done|]. intros q Hq. by rewrite lookup_insert_ne.
Qed.

Lemma for_each_frame {A} (body : A → world → outcome) (l : list A) (T : list string)
    (w : world) :
  (∀ x w0, x ∈ l →
     dirs (world_of (body x w0)) = dirs w0
     ∧ ∀ q, q ∉ T → files (world_of (body x w0)) !! q = files w0 !! q) →
  dirs (world_of (for_each body l w)) = dirs w
  ∧ ∀ q, q ∉ T → files (world_of (for_each body l w)) !! q = files w !! q.
Proof.
  revert w. induction l as [|x l IH]; intros w Hbody; [done|].
  cbn [for_each]. destruct (Hbody x w) as [Hd Hf]; [by left|].
  destruct (body x w) as [w1|e w1]; cbn [world_of] in *; [|done].
  destruct (IH w1) as [Hd' Hf'].
  { intros y w0 Hy. apply Hbody. by right. }
  split; [congruence|]. intros q Hq. by rewrite Hf', Hf.
Qed.

Lemma fix_page_frame (base_dir : string) (kc : string * FixAllPages.config) (w : world) :
  dirs (world_of (FixAllPages.fix_page base_dir kc w)) = dirs w
  ∧ ∀ q, q ≠ FixAllPages.target_script base_dir (fst kc) →
         q ≠ FixAllPages.target_style base_dir (fst kc) →
         files (world_of (FixAllPages.fix_page base_dir kc w)) !! q = files w !! q.
Proof.
  unfold FixAllPages.fix_page, FixAllPages.customize_script.
  destruct (read_file _ w) as [script|]; [|done].
  match goal with |- context [write_file ?d ?p ?c w] =>
    destruct (write_file_frame d p c w) as [Hd Hf];
    destruct (write_file d p c w) as [w1|e w1] end; cbn [world_of] in *; [|by auto].
  unfold FixAllPages.copy_style.
  destruct (read_file _ w1) as [style|]; [|by auto].
  destruct (dict_get _ _) as [cfg|]; [|by auto].
  match goal with |- context [write_file ?d ?p ?c w1] =>
    destruct (write_file_frame d p c w1) as [Hd' Hf'] end.
  split; [congruence|]. intros q H1 H2. by rewrite Hf', Hf.
Qed.

(** Property X17.  Whatever the file system and whether it succeeds or
    fails, a run of [fix_all_pages.py] creates and removes no directory,
    leaves both demo files as they were, and changes no file other than
    the script and the stylesheet of the nine entries. *)
Theorem pages_run_frame (base_dir : string) (w : world) :
  let w' := world_of (FixAllPages.main base_dir w) in
  dirs w' = dirs w
  ∧ read_file (FixAllPages.demo_script base_dir) w'
    = read_file (FixAllPages.demo_script base_dir) w
  ∧ read_file (FixAllPages.demo_style base_dir) w'
    = read_file (FixAllPages.demo_style base_dir) w
  ∧ ∀ p, p ∉ flat_map (fun kc => [FixAllPages.target_script base_dir (fst kc);
                                   FixAllPages.target_style base_dir (fst kc)])
                FixAllPages.CLASSES →
         read_file p w' = read_file p w.
Proof.
  set (T := flat_map (fun kc => [FixAllPages.target_script base_dir (fst kc);
                                 FixAllPages.target_style base_dir (fst kc)])
              FixAllPages.CLASSES).
  assert (dirs (world_of (FixAllPages.main base_dir w)) = dirs w
          ∧ ∀ q, q ∉ T → files (world_of (FixAllPages.main base_dir w)) !! q
                          = files w !! q) as [Hd Hf].
  { apply for_each_frame. intros kc w0 Hkc.
    destruct (fix_page_frame base_dir kc w0) as [Hd Hf]. split; [done|].
    intros q Hq. apply Hf; intros ->; apply Hq; unfold T;
      apply list_elem_of_In, in_flat_map; exists kc;
      (split; [by apply list_elem_of_In|]); cbn [In]; tauto. }
  assert (T = map (String.append (base_prefix base_dir))
            (flat_map (fun kc => ["edge-tests-" +:+ fst kc +:+ "/script.js";
                                  "edge-tests-" +:+ fst kc +:+ "/style.css"])
               FixAllPages.CLASSES)) as HT.
  { unfold T, FixAllPages.CLASSES. cbn [flat_map map app fst snd].
    rewrite !fix_target_script, !fix_target_style by reflexivity.
    rewrite !string_app_assoc. reflexivity. }
  cbn zeta. unfold read_file. split; [done|]. split; [|split; [|done]].
  - apply Hf. rewrite HT, fix_demo_script.
    intros (r & Hr%(inj (String.app _)) & Hin)%list_elem_of_fmap. subst r. revert Hin.
    unfold FixAllPages.CLASSES. cbn [flat_map app fst].
    rewrite !elem_of_cons, elem_of_nil. vm_compute.
    intros H; repeat (destruct H as [H|H]; [discriminate|]); exact H.
  - apply Hf. rewrite HT, fix_demo_style.
    intros (r & Hr%(inj (String.app _)) & Hin)%list_elem_of_fmap. subst r. revert Hin.
    unfold FixAllPages.CLASSES. cbn [flat_map app fst].
    rewrite !elem_of_cons, elem_of_nil. vm_compute.
    intros H; repeat (destruct H as [H|H]; [discriminate|]); exact H.
Qed.

(** ** Output paths *)

Lemma list_ascii_of_string_app (a b : string) :
  list_ascii_of_string (a +:+ b) = list_ascii_of_string a ++ list_ascii_of_string b.
Proof.
  induction a as [|x a IH]; [done|].
  change (list_ascii_of_string (String x (a +:+ b))
          = x :: (list_ascii_of_string a ++ list_ascii_of_string b)).
  cbn [list_ascii_of_string]. by rewrite IH.
Qed.

Lemma list_ascii_of_string_inj (a b : string) :
  list_ascii_of_string a = list_ascii_of_string b → a = b.
Proof.
  intros H. apply (f_equal string_of_list_ascii) in H.
  by rewrite !string_of_list_ascii_of_string in H.
Qed.

Lemma string_app_inj_r (a b c : string) : a +:+ c = b +:+ c → a = b.
Proof.
  intros H. apply (f_equal list_ascii_of_string) in H.
  rewrite !list_ascii_of_string_app in H. apply app_inv_tail in H.
  by apply list_ascii_of_string_inj.
Qed.

Lemma page_dir_no_sep (k : string) :
  ends_with_sep k = false → ends_with_sep ("edge-tests-" +:+ k) = false.
Proof.
  intros Hk. destruct k as [|c k]; [done|]. by rewrite ends_with_sep_app.
Qed.

(** Property X18.  For keys that do not end with a separator, the paths
    [fix_all_pages.py] writes to differ for different keys, the script and
    the stylesheet never share a path, and an output path is a demo file
    exactly when the key is [demo]. *)
Theorem pages_paths_distinct (base_dir k1 k2 : string) :
  ends_with_sep k1 = false → ends_with_sep k2 = false →
  (FixAllPages.target_script base_dir k1 = FixAllPages.target_script base_dir k2 → k1 = k2)
  ∧ (FixAllPages.target_style base_dir k1 = FixAllPages.target_style base_dir k2 → k1 = k2)
  ∧ FixAllPages.target_script base_dir k1 ≠ FixAllPages.target_style base_dir k2
  ∧ (FixAllPages.target_script base_dir k1 = FixAllPages.demo_script base_dir ↔ k1 = "demo")
  ∧ (FixAllPages.target_style base_dir k1 = FixAllPages.demo_style base_dir ↔ k1 = "demo")
  ∧ FixAllPages.target_script base_dir k1 ≠ FixAllPages.demo_style base_dir
  ∧ FixAllPages.target_style base_dir k1 ≠ FixAllPages.demo_script base_dir.
Proof.
  intros H1%page_dir_no_sep H2%page_dir_no_sep.
  rewrite !fix_target_script, !fix_target_style, fix_demo_script, fix_demo_style by done.
  assert (∀ k x y, ("edge-tests-" +:+ k) +:+ x = ("edge-tests-" +:+ k2) +:+ y →
            list_ascii_of_string k ++ list_ascii_of_string x
            = list_ascii_of_string k2 ++ list_ascii_of_string y) as Hlist.
  { intros k x y H. rewrite !string_app_assoc in H. apply (inj (String.app _)) in H.
    apply (f_equal list_ascii_of_string) in H. by rewrite !list_ascii_of_string_app in H. }
  assert (∀ x, base_prefix base_dir +:+ ("edge-tests-" +:+ k1) +:+ x
               = base_prefix base_dir +:+ "edge-tests-demo" +:+ x → k1 = "demo") as Hdemo.
  { intros x H. apply (inj (String.app _)) in H.
    change ("edge-tests-demo" +:+ x) with ("edge-tests-" +:+ "demo" +:+ x) in H.
    rewrite string_app_assoc in H. apply (inj (String.app _)) in H.
    by apply string_app_inj_r in H. }
  repeat split.
  - intros H%(inj (String.app _))%Hlist. apply app_inv_tail in H.
    by apply list_ascii_of_string_inj.
  - intros H%(inj (String.app _))%Hlist. apply app_inv_tail in H.
    by apply list_ascii_of_string_inj.
  - intros H%(inj (String.app _))%Hlist. apply (f_equal (@rev ascii)) in H.
    rewrite !rev_app_distr in H. vm_compute in H. discriminate.
  - apply (Hdemo "/script.js").
  - intros ->. reflexivity.
  - apply (Hdemo "/style.css").
  - intros ->. reflexivity.
  - intros H%(inj (String.app _)).
    change ("edge-tests-demo/style.css") with ("edge-tests-" +:+ "demo" +:+ "/style.css") in H.
    rewrite string_app_assoc in H. apply (inj (String.app _)) in H.
    apply (f_equal list_ascii_of_string) in H. rewrite !list_ascii_of_string_app in H.
    apply (f_equal (@rev ascii)) in H. rewrite !rev_app_distr in H.
    vm_compute in H. discriminate.
  - intros H%(inj (String.app _)).
    change ("edge-tests-demo/script.js") with ("edge-tests-" +:+ "demo" +:+ "/script.js") in H.
    rewrite string_app_assoc in H. apply (inj (String.app _)) in H.
    apply (f_equal list_ascii_of_string) in H. rewrite !list_ascii_of_string_app in H.
    apply (f_equal (@rev ascii)) in H. rewrite !rev_app_distr in H.
    vm_compute in H. discriminate.
Qed.

(** ** The outcomes of [copy_style] *)

Lemma dict_get_is_Some {V} (d : list (string * V)) (k : string) :
  is_Some (dict_get d k) ↔ k ∈ map fst d.
Proof.
  induction d as [|[k' v] d IH]; cbn [dict_get map fst].
  - split; [by intros [? ?]|by intros ?%elem_of_nil].
  - rewrite elem_of_cons. case_decide as Hk.
    + split; [by left|eauto].
    + rewrite IH. split; [by right|]. by intros [?|?].
Qed.

(** Property X19.  [copy_style] succeeds exactly when the demo stylesheet can
    be read, the key is one of the table and the directory of the page
    exists; when it fails the file system is unchanged, and a key outside
    the table gives [KeyError] once the stylesheet was read. *)
Theorem copy_style_succeeds_iff (base_dir key : string) (w : world) :
  (is_done (FixAllPages.copy_style base_dir key w) = true
   ↔ is_Some (read_file (FixAllPages.demo_style base_dir) w)
     ∧ key ∈ map fst FixAllPages.CLASSES
     ∧ FixAllPages.target_dir base_dir key ∈ dirs w)
  ∧ (is_done (FixAllPages.copy_style base_dir key w) = false →
     world_of (FixAllPages.copy_style base_dir key w) = w)
  ∧ (is_Some (read_file (FixAllPages.demo_style base_dir) w) →
     key ∉ map fst FixAllPages.CLASSES →
     FixAllPages.copy_style base_dir key w = Raised (KeyError key) w).
Proof.
  unfold FixAllPages.copy_style.
  destruct (read_file (FixAllPages.demo_style base_dir) w) as [content|] eqn:Hread.
  2:{ cbn [is_done world_of]. split; [|split; [done|]].
      - split; [done|]. by intros [[? ?] _].
      - by intros [? ?]. }
  pose proof (dict_get_is_Some FixAllPages.CLASSES key) as Hkey.
  destruct (dict_get FixAllPages.CLASSES key) as [cfg|].
  - unfold write_file. case_decide as Hd; cbn [is_done world_of].
    + split; [|split; [done|]].
      * split; [|done]. intros _. split; [eauto|]. split; [|done]. apply Hkey. eauto.
      * intros _ Hn. exfalso. apply Hn, Hkey. eauto.
    + split; [|split; [done|]].
      * split; [done|]. by intros (_ & _ & ?).
      * intros _ Hn. exfalso. apply Hn, Hkey. eauto.
  - cbn [is_done world_of]. split; [|split; [done|done]].
    split; [done|]. intros (_ & Hk%Hkey & _). by destruct Hk.
Qed.

(** ** Instances *)


Lemma full_world_page_dirs :
  Forall (fun kc => FixAllPages.target_dir pages_root (fst kc) ∈ dirs full_world)
    FixAllPages.CLASSES.
Proof.
  unfold FixAllPages.CLASSES.
  repeat (apply Forall_cons; split); try (by apply Forall_nil); cbn [fst snd];
    apply full_world_dirs; unfold listed_keys; rewrite !elem_of_cons; tauto.
Qed.


Lemma scripts_missing_directory_witness :
  ∃ w', CustomizeScripts.main scenario_world
        = Raised (FileNotFoundError "page/developer/edge-tests-wishlist/script.js") w'
        ∧ written w' = ["page/developer/edge-tests-cart/script.js"].
Proof.
  eexists. split.
  - apply (scripts_missing_directory scenario_world demo_scenario
             [("cart", CustomizeScripts.Config "Cart" "cart" "/cart" "cartId")]
             (drop 2 CustomizeScripts.CLASSES) "wishlist"
             (CustomizeScripts.Config "Wishlist" "wishlist" "/wishlist" "wishlistId")).
    + reflexivity.
    + unfold read_file, scenario_world; cbn [files]. apply lookup_singleton_eq.
    + apply Forall_cons. split; [|apply Forall_nil; exact I]. cbn [fst].
      unfold scenario_world; cbn [dirs]. apply elem_of_singleton. reflexivity.
    + unfold scenario_world; cbn [dirs]. rewrite elem_of_singleton. discriminate.
  - reflexivity.
Defined.


Lemma full_world_done : ∃ w1, FixAllPages.main pages_root full_world = Done w1.
Proof.
  rewrite (fix_all_pages_run _ _ _ _ full_world_script full_world_style), run_jobs_done;
    [eauto|]. apply pages_job_dirs, full_world_page_dirs.
Qed.

Lemma pages_rerun_identical_witness :
  ∃ w1 w2, FixAllPages.main pages_root full_world = Done w1
           ∧ FixAllPages.main pages_root w1 = Done w2
           ∧ files w2 = files w1.
Proof.
  destruct full_world_done as [w1 H1].
  destruct (pages_rerun_identical pages_root full_world w1 H1) as (w2 & H2 & H3 & _).
  exists w1, w2. split; [assumption|]. split; assumption.
Defined.

Lemma pages_paths_distinct_witness :
  FixAllPages.target_script pages_root "media" ≠ FixAllPages.target_style pages_root "media".
Proof.
  apply (pages_paths_distinct pages_root "media" "media"); reflexivity.
Defined.

(** ** Rules that never fire, and where two scripts agree *)

(** Property X20.  In [customize_all.py], for every entry of the table but
    [media] and every demo text, the rules [demo items] and [Demo Items]
    never change anything: the rules [Demo Item] and [demo item] before them
    leave them nothing to match. *)
Theorem all_items_rules_dead :
  Forall (fun kc => fst kc ≠ "media" → ∀ s,
    CustomizeAll.customize_text (fst kc) (snd kc) s
    = apply_replacements (take 7 (CustomizeAll.replacements (fst kc) (snd kc))) s)
    CustomizeAll.CLASSES.
Proof.
  unfold CustomizeAll.CLASSES. each_entry.
  all: intros Hk s; try done; unfold CustomizeAll.customize_text.
  all: match goal with
       | |- apply_replacements ?rs _ = apply_replacements (take ?n ?rs) _ =>
           rewrite <- (take_drop n rs) at 1; rewrite apply_replacements_app;
           apply apply_replacements_absent; cbn [take drop CustomizeAll.replacements]
       end.
  all: each_entry.
  all: (split; [done|]).
  all: first
    [ apply (absent_sub (lit "Demo Item")); [by vm_compute|];
      apply (absent_after_sound _ _ false); [by vm_compute|done]
    | apply (absent_sub (lit "demo item")); [by vm_compute|];
      apply (absent_after_sound _ _ false); [by vm_compute|done] ].
Qed.

(** Property X21.  In [fix_all_pages.py], for every entry of the table but
    [media] and every demo text, the rules [demo items] and [Demo Items]
    never change anything: the result is that of the first nine rules, the
    rule [{userId}] and the guarded step. *)
Theorem pages_items_rules_dead :
  Forall (fun kc => fst kc ≠ "media" → ∀ s,
    FixAllPages.customize_text (fst kc) (snd kc) s
    = FixAllPages.id_field_step (snd kc)
        (apply_replacements
           (take 9 (FixAllPages.replacements (fst kc) (snd kc))
            ++ drop 11 (FixAllPages.replacements (fst kc) (snd kc))) s))
    FixAllPages.CLASSES.
Proof.
  unfold FixAllPages.CLASSES. each_entry.
  all: intros Hk s; try done; unfold FixAllPages.customize_text; f_equal.
  all: match goal with
       | |- apply_replacements ?rs _ = apply_replacements (take 9 ?rs ++ drop 11 ?rs) _ =>
           rewrite <- (take_drop 9 rs) at 1;
           rewrite <- (take_drop 2 (drop 9 rs)) at 1;
           rewrite !apply_replacements_app;
           rewrite (apply_replacements_absent (take 2 (drop 9 rs)));
           [ reflexivity | cbn [take drop FixAllPages.replacements] ]
       end.
  all: each_entry.
  all: (split; [done|]).
  all: first
    [ apply (absent_sub (lit "Demo Item")); [by vm_compute|];
      apply (absent_after_sound _ _ false); [by vm_compute|done]
    | apply (absent_sub (lit "demo item")); [by vm_compute|];
      apply (absent_after_sound _ _ false); [by vm_compute|done] ].
Qed.

(** A rule whose pattern is absent when its turn comes can be left out. *)
Lemma apply_replacements_skip (l1 l2 : list (text * text)) (r : text * text) (s : text) :
  fst r ≠ [] →
  contains (fst r) (apply_replacements l1 s) = false →
  apply_replacements (l1 ++ r :: l2) s = apply_replacements (l1 ++ l2) s.
Proof.
  intros Hr Hs. rewrite !apply_replacements_app. destruct r as [old new].
  by rewrite apply_replacements_cons, replace_absent.
Qed.

(** Property X22.  For every entry of the table of [fix_all_pages.py], on a
    demo text that holds none of [demo/template], ['demo'] and [userId],
    [fix_all_pages.py] and [customize_all.py] write the same script: the
    rules the first has and the second lacks find nothing to match. *)
Theorem pages_agree_with_all :
  Forall (fun kc => ∀ s,
    contains (lit "demo/template") s = false →
    contains (lit "'demo'") s = false →
    contains (lit "userId") s = false →
    FixAllPages.customize_text (fst kc) (snd kc) s
    = CustomizeAll.customize_text (fst kc)
        (CustomizeAll.Config (FixAllPages.name (snd kc)) (FixAllPages.item (snd kc))
           (FixAllPages.items (snd kc))) s)
    FixAllPages.CLASSES.
Proof.
  unfold FixAllPages.CLASSES. each_entry.
  all: intros s H1 H2 H3.
  all: unfold FixAllPages.customize_text, FixAllPages.id_field_step.
  all: rewrite decide_False by done.
  all: rewrite (replace_absent (lit "inputValues.userId"));
    [|done|apply (absent_sub (lit "userId")); [by vm_compute|];
           by apply (absent_after_sound _ _ true)].
  all: rewrite (replace_absent (lit "'userId'"));
    [|done|apply (absent_sub (lit "userId")); [by vm_compute|];
           by apply (absent_after_sound _ _ true)].
  all: match goal with |- apply_replacements ?rs _ = _ =>
         rewrite <- (take_drop 11 rs) at 1; cbn [take drop FixAllPages.replacements] end.
  all: rewrite apply_replacements_skip;
    [|done|apply (absent_sub (lit "userId")); [by vm_compute|];
           by apply (absent_after_sound _ _ true)].
  all: rewrite app_nil_r.
  all: match goal with |- apply_replacements ?rs _ = _ =>
         rewrite <- (take_drop 3 rs) at 1; cbn [take drop] end.
  all: rewrite apply_replacements_skip;
    [|done|by apply (absent_after_sound _ _ true)].
  all: cbn [app].
  all: match goal with |- apply_replacements (?r0 :: ?r1 :: ?l) _ = _ =>
         rewrite (apply_replacements_skip [r0] l r1);
         [|done|by apply (absent_after_sound _ _ true)] end.
  all: reflexivity.
Qed.

Lemma pages_agree_with_all_witness :
  FixAllPages.customize_text "coupon"
    (FixAllPages.Config "Coupon" "Coupon" "coupons" "couponId")
    (lit "load(/demo/list) // Demo Items")
  = CustomizeAll.customize_text "coupon" (CustomizeAll.Config "Coupon" "Coupon" "coupons")
      (lit "load(/demo/list) // Demo Items").
Proof.
  pose proof pages_agree_with_all as H. rewrite Forall_forall in H.
  apply (H ("coupon", FixAllPages.Config "Coupon" "Coupon" "coupons" "couponId")).
  - unfold FixAllPages.CLASSES. rewrite !elem_of_cons. tauto.
  - reflexivity.
  - reflexivity.
  - reflexivity.
Defined.

(** ** [customize_all.py]: when a run succeeds and what it leaves *)

Lemma customize_all_jobs (base_dir : string) (l : list (string * CustomizeAll.config))
    (content : text) (w : world) :
  read_file (CustomizeAll.demo_path base_dir) w = Some content →
  Forall (fun kc => CustomizeAll.target_path base_dir (fst kc)
                    ≠ CustomizeAll.demo_path base_dir) l →
  for_each (fun kc => CustomizeAll.customize_file base_dir (fst kc) (snd kc)) l w
  = run_jobs (all_jobs base_dir l content) w.
Proof.
  unfold run_jobs. revert w.
  induction l as [|[k cfg] l IH]; intros w Hread Hl; [done|].
  apply Forall_cons in Hl as [Hk Hl]. cbn [fst snd] in Hk.
  cbn [for_each all_jobs map fst snd].
  unfold CustomizeAll.customize_file at 1. rewrite Hread.
  destruct (write_file _ _ _ w) as [w'|e w'] eqn:Hw; [|done].
  apply IH; [|done]. apply write_file_done in Hw as (Hf & _ & _).
  unfold read_file in *. by rewrite Hf, lookup_insert_ne.
Qed.

Lemma all_job_paths (base_dir : string) (content : text) :
  map (fun j => snd (fst j)) (all_jobs base_dir CustomizeAll.CLASSES content)
  = map (String.append (base_prefix base_dir))
      (map (fun k => "edge-tests-" +:+ k +:+ "/script.js") listed_keys).
Proof.
  unfold all_jobs, CustomizeAll.CLASSES, listed_keys. cbn [map fst snd].
  change (CustomizeAll.target_path base_dir) with (FixAllPages.target_script base_dir).
  rewrite !fix_target_script by reflexivity. rewrite !string_app_assoc. reflexivity.
Qed.

Lemma all_demo_not_written (base_dir : string) (content : text) :
  CustomizeAll.demo_path base_dir
  ∉ map (fun j => snd (fst j)) (all_jobs base_dir CustomizeAll.CLASSES content).
Proof.
  rewrite all_job_paths.
  change (CustomizeAll.demo_path base_dir) with (FixAllPages.demo_script base_dir).
  rewrite fix_demo_script.
  intros (r & Hr%(inj (String.app _)) & Hin)%list_elem_of_fmap. subst r. revert Hin.
  unfold listed_keys. cbn [map]. rewrite !elem_of_cons, elem_of_nil. vm_compute.
  intros H; repeat (destruct H as [H|H]; [discriminate|]); exact H.
Qed.

Lemma customize_all_run (base_dir : string) (content : text) (w : world) :
  read_file (CustomizeAll.demo_path base_dir) w = Some content →
  CustomizeAll.main base_dir w = run_jobs (all_jobs base_dir CustomizeAll.CLASSES content) w.
Proof.
  intros Hread. apply customize_all_jobs; [done|].
  apply Forall_forall. intros [k cfg] Hin Heq. cbn [fst] in Heq.
  apply (all_demo_not_written base_dir content). rewrite <- Heq.
  unfold all_jobs. rewrite map_map. cbn [fst snd].
  by apply (list_elem_of_fmap_2 (fun kc => CustomizeAll.target_path base_dir (fst kc))
              _ (k, cfg)).
Qed.

Lemma all_job_dirs (base_dir : string) (l : list (string * CustomizeAll.config))
    (content : text) (w : world) :
  Forall (fun j => fst (fst j) ∈ dirs w) (all_jobs base_dir l content)
  ↔ Forall (fun kc => CustomizeAll.target_dir base_dir (fst kc) ∈ dirs w) l.
Proof. unfold all_jobs. by rewrite Forall_map. Qed.

(** Property X23.  A run of [customize_all.py] succeeds exactly when the demo
    script can be read and the directory of each of the ten entries exists. *)
Theorem all_run_succeeds_iff (base_dir : string) (w : world) :
  is_done (CustomizeAll.main base_dir w) = true
  ↔ is_Some (read_file (CustomizeAll.demo_path base_dir) w)
    ∧ Forall (fun kc => CustomizeAll.target_dir base_dir (fst kc) ∈ dirs w)
        CustomizeAll.CLASSES.
Proof.
  destruct (read_file (CustomizeAll.demo_path base_dir) w) as [content|] eqn:Hread.
  - rewrite (customize_all_run _ _ _ Hread). split.
    + destruct (run_jobs _ w) as [w1|e w1] eqn:Hrun; [|done]. intros _.
      split; [eauto|]. by apply run_jobs_inv, all_job_dirs in Hrun.
    + intros [_ Hdirs]. rewrite run_jobs_done; [done|]. by apply all_job_dirs.
  - split; [|by intros [[? ?] _]].
    unfold CustomizeAll.main, CustomizeAll.CLASSES. cbn [for_each].
    unfold CustomizeAll.customize_file. by rewrite Hread.
Qed.



(** ** What replacing cannot create *)

Lemma startswith_app_cancel (n p x : text) :
  startswith (n ++ p) (n ++ x) = startswith p x.
Proof. induction n as [|c n IH]; [done|]. cbn. by rewrite Ascii.eqb_refl, IH. Qed.

Lemma forallb_tails_app (f : text → bool) (n p : text) :
  forallb f (nonempty_tails (n ++ p)) = true → forallb f (nonempty_tails p) = true.
Proof.
  induction n as [|c n IH]; [done|]. cbn [app nonempty_tails forallb].
  intros [_ H]%andb_true_iff. by apply IH.
Qed.

Section Finer.
Variables old new : text.

Lemma contains_app_tail_ok (p x : text) :
  forallb (tail_ok old p) (nonempty_tails new) = true →
  contains p (new ++ x) = true →
  contains p x = true
  ∨ ∃ n p', p = n ++ p' ∧ n `suffix_of` old ∧ startswith p' x = true.
Proof.
  induction new as [|c n IH]; [by left|].
  cbn [nonempty_tails forallb]. intros [Hok Hn]%andb_true_iff.
  cbn [app contains]. change (c :: n ++ x) with ((c :: n) ++ x).
  intros [Hs|Hc]%orb_true_iff; [|by apply IH].
  right. unfold tail_ok in Hok. apply orb_true_iff in Hok as [Hd|[Hp Hsuf]%andb_true_iff].
  - by rewrite (diverge_startswith (c :: n) p) in Hs.
  - apply startswith_prefix_of in Hp as [p' ->]. exists (c :: n), p'.
    split; [done|]. split.
    + by apply rev_prefix_suffix, startswith_prefix_of.
    + by rewrite startswith_app_cancel in Hs.
Qed.

Lemma contains_replace_go_for (p s : text) (k : nat) :
  old ≠ [] → clean_for old p new = true →
  contains p (replace_go old new k s) = true → contains p s = true.
Proof.
  intros Ho Hc. destruct p as [|a p]; [done|].
  apply andb_true_iff in Hc as [Hin Hout].
  revert k; induction s as [|c s IH]; intros k; [done|].
  destruct k as [|k]; cbn [replace_go].
  - destruct (startswith old (c :: s)) eqn:Hm.
    + intros H. apply contains_app_tail_ok in H; [|done].
      destruct H as [H|(n & p' & Hp & Hsuf & Hp')].
      * apply IH in H. cbn [contains]. by rewrite H, orb_true_r.
      * rewrite replace_go_skip in Hp'. apply startswith_replace_go in Hp' as [Hp' _].
        2:{ rewrite Hp in Hout. by apply forallb_tails_app in Hout. }
        apply startswith_prefix_of in Hm as [r Hr]. destruct Hsuf as [m Hm].
        apply startswith_prefix_of in Hp' as [r' Hr'].
        assert (drop (length old - 1) s = r) as Hdrop.
        { destruct old as [|o old']; [done|]. injection Hr as _ ->.
          cbn [length]. rewrite Nat.sub_succ, Nat.sub_0_r. apply drop_app_length. }
        rewrite Hdrop in Hr'. apply contains_spec. exists m, r'.
        rewrite Hr, Hm, Hr', Hp. by rewrite <- !app_assoc.
    + cbn [contains]. intros [H|H%IH]%orb_true_iff.
      * assert (startswith (a :: p) (replace_go old new 0 (c :: s)) = true) as H'.
        { cbn [replace_go]. by rewrite Hm. }
        apply startswith_replace_go in H' as [H' _]; [|done].
        cbn [contains]. by rewrite H'.
      * cbn [contains]. by rewrite H, orb_true_r.
  - intros H%IH. cbn [contains]. by rewrite H, orb_true_r.
Qed.

Lemma replace_creates_none_for (p s : text) :
  old ≠ [] → clean_for old p new = true →
  contains p s = false → contains p (replace old new s) = false.
Proof.
  intros Ho Hc Hs. rewrite replace_nonempty by done.
  destruct (contains p (replace_go old new 0 s)) eqn:H; [|done].
  apply contains_replace_go_for in H; [congruence|done..].
Qed.
End Finer.

Lemma absent_after_for_sound (p : text) (rs : list (text * text)) (a : bool) (s : text) :
  absent_after_for p rs a = true →
  (a = true → contains p s = false) →
  contains p (apply_replacements rs s) = false.
Proof.
  revert a s; induction rs as [|[old new] rs IH]; intros a s; cbn [absent_after_for].
  - intros -> H. by apply H.
  - destruct old as [|o old'] eqn:E; [done|]. rewrite <- E.
    assert (old ≠ []) as Ho by (by rewrite E).
    rewrite apply_replacements_cons.
    destruct (bool_decide (old = p) && clean p new) eqn:Hk.
    + apply andb_true_iff in Hk as [->%bool_decide_eq_true Hc]. intros Ha _.
      apply (IH _ _ Ha). intros _. by apply replace_kills.
    + destruct (clean_for old p new) eqn:Hc; intros Ha Hs.
      * apply (IH _ _ Ha). intros Ht. apply replace_creates_none_for; auto.
      * by apply (IH _ _ Ha).
Qed.

(** Property X25.  For every entry of the table of [customize_scripts.py] but
    [orders] and every demo text, the customized text holds no occurrence of
    [demo] in that exact case. *)
Theorem scripts_no_demo_left :
  Forall (fun kc => fst kc ≠ "orders" → ∀ s,
    contains (lit "demo") (CustomizeScripts.customize_text (snd kc) s) = false)
    CustomizeScripts.CLASSES.
Proof.
  unfold CustomizeScripts.CLASSES. each_entry.
  all: intros Hk s; try done; rewrite scripts_rules_text by done.
  all: apply (absent_after_for_sound _ _ false); [by vm_compute|done].
Qed.
